(** * climatecom: the Climate FieldView command-line client

    A shallow embedding of [src/config.js], [src/api.js] and [src/index.js]
    and the properties of the error mapping, the record extraction, the
    table renderer and the command layer.

    Conventions of the embedding.
    - A JavaScript string is the list of its UTF-16 code units, so that
      [length], [substring], [padEnd] and [repeat] count what the engine
      counts.
    - A value is what [JSON.parse] produces (plus [undefined]); objects keep
      the order of their keys.  Property reads look at own properties only:
      the development is about keys that name nothing on the built-in
      prototypes.
    - Doubles stay abstract: the class [Host] lists the operations of the
      engine and of the libraries (chalk, util.inspect, Date) the program
      calls and does not define.
    - Effects are explicit: a computation returns the events it caused and
      how it ended (returned, threw, or ended the process). *)

From Stdlib Require Import ZArith NArith Decimal DecimalFacts DecimalNat DecimalN.
From Stdlib Require Import String Ascii.
From stdpp Require Import gmap list.

Set Warnings "-register-all".

(** ** Strings *)

Abbreviation codeunit := N (only parsing).
Abbreviation jsstring := (list N) (only parsing).

Definition lit (s : string) : jsstring :=
  map N_of_ascii (list_ascii_of_string s).
Arguments lit _%_string.

(** [s.padEnd(w)] with the default filler, a space. *)
Definition padEnd (s : jsstring) (w : nat) : jsstring :=
  s ++ replicate (w - length s) 32%N.

(** [s.substring(0, w)]. *)
Definition substring0 (s : jsstring) (w : nat) : jsstring := take w s.

(** [parts.join(sep)] on an array of strings. *)
Fixpoint join_with (sep : jsstring) (parts : list jsstring) : jsstring :=
  match parts with
  | [] => []
  | [p] => p
  | p :: rest => p ++ sep ++ join_with sep rest
  end.

(** Decimal numerals: what the engine prints for an integer index, length or
    status code. *)
Fixpoint digits (u : Decimal.uint) : jsstring :=
  match u with
  | Nil => []
  | D0 u => 48%N :: digits u
  | D1 u => 49%N :: digits u
  | D2 u => 50%N :: digits u
  | D3 u => 51%N :: digits u
  | D4 u => 52%N :: digits u
  | D5 u => 53%N :: digits u
  | D6 u => 54%N :: digits u
  | D7 u => 55%N :: digits u
  | D8 u => 56%N :: digits u
  | D9 u => 57%N :: digits u
  end.

Definition decimal (n : nat) : jsstring := digits (Nat.to_uint n).

(** A numeral has at least one digit. *)
Lemma to_uint_not_nil (n : nat) : Nat.to_uint n <> Nil.
Proof.
  rewrite <- (DecimalNat.Unsigned.of_to n) at 1.
  rewrite DecimalNat.Unsigned.to_of. apply DecimalFacts.unorm_nonnil.
Qed.

Definition decimalZ (z : Z) : jsstring :=
  match z with
  | Z0 => lit "0"
  | Zpos p => digits (Pos.to_uint p)
  | Zneg p => lit "-" ++ digits (Pos.to_uint p)
  end.

(** Four hexadecimal digits, lower case, as in a [\uXXXX] escape. *)
Definition hexdigit (n : N) : codeunit :=
  if (n <? 10)%N then (48 + n)%N else (87 + n)%N.

Definition hex4 (c : codeunit) : jsstring :=
  [hexdigit (c / 4096 mod 16); hexdigit (c / 256 mod 16);
   hexdigit (c / 16 mod 16); hexdigit (c mod 16)]%N.

(** ** The host: engine and library operations the program relies on *)

Inductive style := Green | Red | Yellow | Bold | Cyan | Dim.

(** The faults of the engine this program can run into; the text of their
    messages is the engine's. *)
Inductive fault :=
  | ReadOfNull (prop : jsstring)         (* [null.prop] *)
  | ReadOfUndefined (prop : jsstring)    (* [undefined.prop] *)
  | DestructureOfNull (prop : jsstring)  (* [({prop}) => ..] applied to [null] *)
  | NotAFunction (expr : jsstring).      (* [expr(..)] where [expr] is no function *)

Class Host := {
  (** IEEE doubles *)
  number : Type;
  (** a numeric literal *)
  num_of_Z : Z -> number;
  (** [ToBoolean]: false on zeros and NaN *)
  num_truthy : number -> bool;
  (** false on NaN and the infinities *)
  num_finite : number -> bool;
  (** [Number.prototype.toString] *)
  num_to_string : number -> jsstring;
  (** [n.toFixed(2)] *)
  num_toFixed2 : number -> jsstring;
  (** [n === z] for an integer literal [z] *)
  num_is : number -> Z -> bool;
  parseInt : jsstring -> number;
  parseFloat : jsstring -> number;
  (** a canonical decimal numeral parses to the number it denotes *)
  parseInt_decimal : forall n : nat, parseInt (decimal n) = num_of_Z (Z.of_nat n);
  (** chalk: the text wrapped for the terminal at hand *)
  chalk : style -> jsstring -> jsstring;
  (** the message of the [TypeError] the engine raises *)
  fault_message : fault -> jsstring;
}.

(** ** Values *)

Section Values.
Context `{Host}.

Inductive value :=
  | VUndefined
  | VNull
  | VBool (b : bool)
  | VNum (n : number)
  | VStr (s : jsstring)
  | VArr (items : list value)
  | VObj (fields : list (jsstring * value)).

(** [ToBoolean]. *)
Definition truthy (v : value) : bool :=
  match v with
  | VUndefined | VNull => false
  | VBool b => b
  | VNum n => num_truthy n
  | VStr s => negb (bool_decide (s = []))
  | VArr _ | VObj _ => true
  end.

(** [a || b] and [a ?? b] on already evaluated operands (the right operands
    in this program have no effects). *)
Definition js_or (a b : value) : value := if truthy a then a else b.

Definition nullish (v : value) : bool :=
  match v with VUndefined | VNull => true | _ => false end.

Definition js_coalesce (a b : value) : value := if nullish a then b else a.

(** [String(v)], also the conversion of a template literal. *)
Fixpoint ToString (v : value) : jsstring :=
  match v with
  | VUndefined => lit "undefined"
  | VNull => lit "null"
  | VBool true => lit "true"
  | VBool false => lit "false"
  | VNum n => num_to_string n
  | VStr s => s
  | VArr items =>
      join_with (lit ",")
        ((fix each (l : list value) : list jsstring :=
            match l with
            | [] => []
            | x :: l' => (if nullish x then [] else ToString x) :: each l'
            end) items)
  | VObj _ => lit "[object Object]"
  end.

(** Own-property lookup in an object. *)
Fixpoint lookup_field (k : jsstring) (fields : list (jsstring * value)) : option value :=
  match fields with
  | [] => None
  | (k', v) :: rest => if decide (k' = k) then Some v else lookup_field k rest
  end.

(** The index an array-index key denotes, if it is below [len]. *)
Definition index_of_key (k : jsstring) (len : nat) : option nat :=
  find (fun i => bool_decide (decimal i = k)) (seq 0 len).

(** [v[k]] for a [v] that is neither [null] nor [undefined]. *)
Definition own_property (v : value) (k : jsstring) : value :=
  match v with
  | VObj fields => default VUndefined (lookup_field k fields)
  | VArr items =>
      if decide (k = lit "length") then VNum (num_of_Z (Z.of_nat (length items)))
      else match index_of_key k (length items) with
           | Some i => default VUndefined (items !! i)
           | None => VUndefined
           end
  | VStr s =>
      if decide (k = lit "length") then VNum (num_of_Z (Z.of_nat (length s)))
      else match index_of_key k (length s) with
           | Some i => from_option (fun c => VStr [c]) VUndefined (s !! i)
           | None => VUndefined
           end
  | _ => VUndefined
  end.

(** [v.k], which throws on [null] and [undefined]. *)
Definition property_fault (v : value) (k : jsstring) : option fault :=
  match v with
  | VNull => Some (ReadOfNull k)
  | VUndefined => Some (ReadOfUndefined k)
  | _ => None
  end.

(** [v?.k]. *)
Definition optional_property (v : value) (k : jsstring) : value :=
  if nullish v then VUndefined else own_property v k.

(** *** JSON.stringify *)

Definition is_high_surrogate (c : codeunit) : bool := ((55296 <=? c) && (c <=? 56319))%N.
Definition is_low_surrogate (c : codeunit) : bool := ((56320 <=? c) && (c <=? 57343))%N.

Definition unicode_escape (c : codeunit) : jsstring := lit "\u" ++ hex4 c.

Definition quote_unit (c : codeunit) : jsstring :=
  if (c =? 8)%N then lit "\b"
  else if (c =? 9)%N then lit "\t"
  else if (c =? 10)%N then lit "\n"
  else if (c =? 12)%N then lit "\f"
  else if (c =? 13)%N then lit "\r"
  else if (c =? 34)%N then [92; 34]%N
  else if (c =? 92)%N then [92; 92]%N
  else if (c <? 32)%N then unicode_escape c
  else if is_low_surrogate c then unicode_escape c
  else [c].

Fixpoint quote_units (s : jsstring) : jsstring :=
  match s with
  | [] => []
  | c :: rest =>
      if is_high_surrogate c then
        match rest with
        | d :: rest' =>
            if is_low_surrogate d then c :: d :: quote_units rest'
            else unicode_escape c ++ quote_units rest
        | [] => unicode_escape c
        end
      else quote_unit c ++ quote_units rest
  end.

(** [QuoteJSONString]. *)
Definition quote (s : jsstring) : jsstring := [34%N] ++ quote_units s ++ [34%N].

Definition json_wrap (opening closing gap indent inner : jsstring)
    (partial : list jsstring) : jsstring :=
  match partial with
  | [] => opening ++ closing
  | _ =>
      if decide (gap = []) then opening ++ join_with (lit ",") partial ++ closing
      else opening ++ [10%N] ++ inner ++ join_with ([44; 10]%N ++ inner) partial
             ++ [10%N] ++ indent ++ closing
  end.

(** [SerializeJSONProperty] with indentation unit [gap] at the current
    [indent]; [None] is [undefined]. *)
Fixpoint serialize (gap indent : jsstring) (v : value) {struct v} : option jsstring :=
  match v with
  | VUndefined => None
  | VNull => Some (lit "null")
  | VBool true => Some (lit "true")
  | VBool false => Some (lit "false")
  | VNum n => Some (if num_finite n then num_to_string n else lit "null")
  | VStr s => Some (quote s)
  | VArr items =>
      let inner := indent ++ gap in
      Some (json_wrap (lit "[") (lit "]") gap indent inner
        ((fix each (l : list value) : list jsstring :=
            match l with
            | [] => []
            | x :: l' => default (lit "null") (serialize gap inner x) :: each l'
            end) items))
  | VObj fields =>
      let inner := indent ++ gap in
      Some (json_wrap (lit "{") (lit "}") gap indent inner
        ((fix each (l : list (jsstring * value)) : list jsstring :=
            match l with
            | [] => []
            | (k, x) :: l' =>
                match serialize gap inner x with
                | Some text =>
                    (quote k ++ lit ":" ++ (if decide (gap = []) then [] else lit " ") ++ text)
                      :: each l'
                | None => each l'
                end
            end) fields))
  end.

(** [JSON.stringify(v)] and [JSON.stringify(v, null, 2)], as values. *)
Definition JSON_stringify (v : value) : value :=
  from_option VStr VUndefined (serialize [] [] v).

Definition JSON_stringify2 (v : value) : value :=
  from_option VStr VUndefined (serialize (lit "  ") [] v).

End Values.

(** Library operations on values. *)

Class Libraries `{Host} := {
  (** how [console.log] shows an argument that is no string ([util.inspect]) *)
  inspect : value -> jsstring;
  (** [new Date(v).toLocaleDateString()] and [new Date(v).toLocaleString()] *)
  toLocaleDateString : value -> jsstring;
  toLocaleString : value -> jsstring;
}.

(** ** Effects *)

Section Effects.
Context `{Libraries}.

(** What is thrown: an [Error] object, as far as the program looks at it.
    [err_response] is [error.response] (status and decoded body) and
    [err_request] says whether [error.request] is set. *)
Record error := {
  err_response : option (Z * value);
  err_request : bool;
  err_message : jsstring;
}.

(** [new Error(message)]. *)
Definition Error (message : jsstring) : error :=
  {| err_response := None; err_request := false; err_message := message |}.

(** A [TypeError] of the engine. *)
Definition TypeError (f : fault) : error := Error (fault_message f).

Inductive config_key :=
  | KApiKey | KClientId | KClientSecret | KAccessToken | KTokenExpiry | KBaseUrl.

Inductive http_method := GET | POST.

(** What is handed to axios for one call. *)
Record request := {
  req_method : http_method;
  req_baseURL : jsstring;
  req_url : jsstring;
  req_headers : list (jsstring * jsstring);
  req_params : option (list (jsstring * value));
  req_data : option value;
}.

Inductive event :=
  | ConfigGet (key : config_key)
  | Request (r : request)
  | Stdout (text : jsstring)
  | Stderr (text : jsstring)
  | SpinnerStart (text : jsstring)
  | SpinnerStop.

(** How a computation ends: it returns, it throws, or the process ends. *)
Inductive outcome (A : Type) :=
  | Returned (a : A)
  | Thrown (e : error)
  | Exited (code : Z).
Arguments Returned {A} a.
Arguments Thrown {A} e.
Arguments Exited {A} code.

(** A computation: the events it caused, in order, and how it ended. *)
Definition Out (A : Type) : Type := list event * outcome A.

Definition ret {A} (a : A) : Out A := ([], Returned a).
Definition throw {A} (e : error) : Out A := ([], Thrown e).
Definition emit (ev : event) : Out unit := ([ev], Returned tt).
(** [process.exit(code)]: nothing after it runs, no handler catches it. *)
Definition process_exit {A} (code : Z) : Out A := ([], Exited code).

Definition bind {A B} (m : Out A) (k : A -> Out B) : Out B :=
  match m with
  | (t, Returned a) => let (t', r) := k a in (t ++ t', r)
  | (t, Thrown e) => (t, Thrown e)
  | (t, Exited c) => (t, Exited c)
  end.

(** [try { m } catch (error) { handler(error) }]. *)
Definition try_catch {A} (m : Out A) (handler : error -> Out A) : Out A :=
  match m with
  | (t, Thrown e) => let (t', r) := handler e in (t ++ t', r)
  | other => other
  end.

End Effects.

Arguments Returned {_ A} a.
Arguments Thrown {_ A} e.
Arguments Exited {_ A} code.

Notation "x <- m ;; k" := (bind m (fun x => k))
  (at level 100, m at next level, right associativity).
Notation "m ;; k" := (bind m (fun _ => k))
  (at level 100, right associativity).

(** ** config.js *)

Section Config.
Context `{Libraries}.

(** The store with its schema: five strings and the expiry, epoch
    milliseconds. *)
Record config := {
  apiKey : jsstring;
  clientId : jsstring;
  clientSecret : jsstring;
  accessToken : jsstring;
  tokenExpiry : Z;
  baseUrl : jsstring;
}.

(** The defaults of the schema; also the store after [clearConfig()]. *)
Definition default_config : config :=
  {| apiKey := []; clientId := []; clientSecret := []; accessToken := [];
     tokenExpiry := 0; baseUrl := lit "https://platform.climate.com" |}.

(** What a run can observe of its surroundings: the store, the answer of
    the network to a request, and the clock ([Date.now()]). *)
Inductive net_reply :=
  | Reply (status : Z) (data : value)   (* a response came back *)
  | NoReply (message : jsstring)        (* the request was sent, nothing came back *)
  | NotSent (message : jsstring).       (* the request could not be set up *)

Record world := {
  w_config : config;
  w_net : request -> net_reply;
  w_now : Z;
}.

Definition config_get (c : config) (key : config_key) : value :=
  match key with
  | KApiKey => VStr (apiKey c)
  | KClientId => VStr (clientId c)
  | KClientSecret => VStr (clientSecret c)
  | KAccessToken => VStr (accessToken c)
  | KTokenExpiry => VNum (num_of_Z (tokenExpiry c))
  | KBaseUrl => VStr (baseUrl c)
  end.

Definition getConfig (w : world) (key : config_key) : Out value :=
  emit (ConfigGet key) ;; ret (config_get (w_config w) key).

(** [setConfig(key, value)] for a value of the type the schema gives the
    key. *)
Inductive setting :=
  | SetApiKey (v : jsstring)
  | SetClientId (v : jsstring)
  | SetClientSecret (v : jsstring)
  | SetAccessToken (v : jsstring)
  | SetTokenExpiry (v : Z)
  | SetBaseUrl (v : jsstring).

Definition config_set (c : config) (s : setting) : config :=
  match s with
  | SetApiKey v =>
      {| apiKey := v; clientId := clientId c; clientSecret := clientSecret c;
         accessToken := accessToken c; tokenExpiry := tokenExpiry c; baseUrl := baseUrl c |}
  | SetClientId v =>
      {| apiKey := apiKey c; clientId := v; clientSecret := clientSecret c;
         accessToken := accessToken c; tokenExpiry := tokenExpiry c; baseUrl := baseUrl c |}
  | SetClientSecret v =>
      {| apiKey := apiKey c; clientId := clientId c; clientSecret := v;
         accessToken := accessToken c; tokenExpiry := tokenExpiry c; baseUrl := baseUrl c |}
  | SetAccessToken v =>
      {| apiKey := apiKey c; clientId := clientId c; clientSecret := clientSecret c;
         accessToken := v; tokenExpiry := tokenExpiry c; baseUrl := baseUrl c |}
  | SetTokenExpiry v =>
      {| apiKey := apiKey c; clientId := clientId c; clientSecret := clientSecret c;
         accessToken := accessToken c; tokenExpiry := v; baseUrl := baseUrl c |}
  | SetBaseUrl v =>
      {| apiKey := apiKey c; clientId := clientId c; clientSecret := clientSecret c;
         accessToken := accessToken c; tokenExpiry := tokenExpiry c; baseUrl := v |}
  end.

Definition setConfig (w : world) (s : setting) : world :=
  {| w_config := config_set (w_config w) s; w_net := w_net w; w_now := w_now w |}.

Definition getAllConfig (w : world) : config := w_config w.

Definition clearConfig (w : world) : world :=
  {| w_config := default_config; w_net := w_net w; w_now := w_now w |}.

Definition isConfigured (w : world) : Out bool :=
  apiKey <- getConfig w KApiKey ;;
  ret (negb (negb (truthy apiKey))).

Definition hasValidToken (w : world) : Out bool :=
  accessToken <- getConfig w KAccessToken ;;
  getConfig w KTokenExpiry ;;
  let tokenExpiry := tokenExpiry (w_config w) in
  if negb (truthy accessToken) then ret false
  else ret (w_now w + 60000 <? tokenExpiry)%Z.

End Config.

(** ** api.js *)

Section Api.
Context `{Libraries}.

Definition BASE_URL : jsstring := lit "https://platform.climate.com".

(** The axios instance: what [axios.create] was given. *)
Record client := {
  client_baseURL : jsstring;
  client_headers : list (jsstring * jsstring);
}.

Definition getClient (w : world) : Out client :=
  apiKey <- getConfig w KApiKey ;;
  ret {| client_baseURL := BASE_URL;
         client_headers :=
           [(lit "Authorization", lit "Bearer " ++ ToString apiKey);
            (lit "Accept", lit "application/json");
            (lit "Content-Type", lit "application/json")] |}.

Record response := {
  status : Z;
  data : value;
}.

(** How axios settles a call.  It resolves on a status from 200 to 299 and
    rejects otherwise: with [error.response] when an answer came back, with
    [error.request] alone when none did, with neither when the request was
    never sent. *)
Definition settle (reply : net_reply) : Out response :=
  match reply with
  | Reply st d =>
      if ((200 <=? st) && (st <? 300))%Z then ret {| status := st; data := d |}
      else throw {| err_response := Some (st, d); err_request := true;
                    err_message := lit "Request failed with status code " ++ decimalZ st |}
  | NoReply msg =>
      throw {| err_response := None; err_request := true; err_message := msg |}
  | NotSent msg =>
      throw {| err_response := None; err_request := false; err_message := msg |}
  end.

(** One call of the instance. *)
Definition axios_call (w : world) (c : client) (m : http_method) (url : jsstring)
    (params : option (list (jsstring * value))) (body : option value) : Out response :=
  let r := {| req_method := m; req_baseURL := client_baseURL c; req_url := url;
              req_headers := client_headers c; req_params := params;
              req_data := body |} in
  emit (Request r) ;; settle (w_net w r).

Definition client_get (w : world) (c : client) (url : jsstring)
    (params : option (list (jsstring * value))) : Out response :=
  axios_call w c GET url params None.

Definition client_post (w : world) (c : client) (url : jsstring) (body : value) : Out response :=
  axios_call w c POST url None (Some body).

Definition handleApiError {A} (error : error) : Out A :=
  match err_response error with
  | Some (status, data) =>
      if (status =? 401)%Z then throw (Error (lit "Authentication failed. Check your API key."))
      else if (status =? 403)%Z then throw (Error (lit "Access forbidden. Check your API permissions."))
      else if (status =? 404)%Z then throw (Error (lit "Resource not found."))
      else if (status =? 429)%Z then throw (Error (lit "Rate limit exceeded. Please wait before retrying."))
      else
        let message :=
          js_or (js_or (optional_property data (lit "message"))
                       (optional_property data (lit "error")))
                (JSON_stringify data) in
        throw (Error (lit "API Error (" ++ decimalZ status ++ lit "): " ++ ToString message))
  | None =>
      if err_request error then
        throw (Error (lit "No response from Climate FieldView API. Check your internet connection."))
      else throw error
  end.

(** The parameter pattern [{ limit = 50 } = {}] applied to the argument. *)
Definition limit_parameter (arg : value) : Out value :=
  match arg with
  | VUndefined => ret (VNum (num_of_Z 50))
  | VNull => throw (TypeError (DestructureOfNull (lit "limit")))
  | _ =>
      match own_property arg (lit "limit") with
      | VUndefined => ret (VNum (num_of_Z 50))
      | limit => ret limit
      end
  end.

(** The five list operations differ in their path only. *)
Definition list_operation (path : jsstring) (w : world) (arg : value) : Out value :=
  limit <- limit_parameter arg ;;
  client <- getClient w ;;
  try_catch
    (response <- client_get w client path (Some [(lit "limit", limit)]) ;;
     ret (data response))
    handleApiError.

(** And so do the five operations that fetch one resource. *)
Definition get_operation (path : jsstring) (w : world) (id : value) : Out value :=
  client <- getClient w ;;
  try_catch
    (response <- client_get w client (path ++ ToString id) None ;;
     ret (data response))
    handleApiError.

Definition listFields := list_operation (lit "/v4/fields").
Definition getField := get_operation (lit "/v4/fields/").

(** The parameter pattern [{ name, acres, boundary } = {}]. *)
Definition createField (w : world) (arg : value) : Out value :=
  arg <- match arg with
         | VUndefined => ret (VObj [])
         | VNull => throw (TypeError (DestructureOfNull (lit "name")))
         | _ => ret arg
         end ;;
  let name := own_property arg (lit "name") in
  let acres := own_property arg (lit "acres") in
  let boundary := own_property arg (lit "boundary") in
  client <- getClient w ;;
  try_catch
    (let body := VObj ([(lit "name", name)]
                       ++ (if truthy acres then [(lit "acres", acres)] else [])
                       ++ (if truthy boundary then [(lit "boundary", boundary)] else [])) in
     response <- client_post w client (lit "/v4/fields") body ;;
     ret (data response))
    handleApiError.

Definition listFarms := list_operation (lit "/v4/farms").
Definition getFarm := get_operation (lit "/v4/farms/").
Definition listBoundaries := list_operation (lit "/v4/boundaries").
Definition getBoundary := get_operation (lit "/v4/boundaries/").
Definition listHarvestActivities := list_operation (lit "/v4/activitySummaries/harvest").
Definition getHarvestActivity := get_operation (lit "/v4/activitySummaries/harvest/").
Definition listPlantingActivities := list_operation (lit "/v4/activitySummaries/planting").
Definition getPlantingActivity := get_operation (lit "/v4/activitySummaries/planting/").

(** The operations the module exports, each with its argument. *)
Inductive operation :=
  | ListFields (arg : value)
  | GetField (fieldId : value)
  | CreateField (arg : value)
  | ListFarms (arg : value)
  | GetFarm (farmId : value)
  | ListBoundaries (arg : value)
  | GetBoundary (boundaryId : value)
  | ListHarvestActivities (arg : value)
  | GetHarvestActivity (activityId : value)
  | ListPlantingActivities (arg : value)
  | GetPlantingActivity (activityId : value).

Definition call (w : world) (op : operation) : Out value :=
  match op with
  | ListFields arg => listFields w arg
  | GetField id => getField w id
  | CreateField arg => createField w arg
  | ListFarms arg => listFarms w arg
  | GetFarm id => getFarm w id
  | ListBoundaries arg => listBoundaries w arg
  | GetBoundary id => getBoundary w id
  | ListHarvestActivities arg => listHarvestActivities w arg
  | GetHarvestActivity id => getHarvestActivity w id
  | ListPlantingActivities arg => listPlantingActivities w arg
  | GetPlantingActivity id => getPlantingActivity w id
  end.

End Api.

(** ** index.js *)

Section Commands.
Context `{Libraries}.

Definition console_log (text : jsstring) : Out unit := emit (Stdout text).
Definition console_error (text : jsstring) : Out unit := emit (Stderr text).

(** How [console.log] shows one argument: a string as it is. *)
Definition shown (v : value) : jsstring :=
  match v with VStr s => s | _ => inspect v end.

(** [console.log(label, v)] for a [label] without format directives. *)
Definition console_log2 (label : jsstring) (v : value) : Out unit :=
  console_log (label ++ lit " " ++ shown v).

(** [v.k] as a computation. *)
Definition property (v : value) (k : jsstring) : Out value :=
  match property_fault v k with
  | Some f => throw (TypeError f)
  | None => ret (own_property v k)
  end.

(** [v.toFixed(2)], written [expr] in the source. *)
Definition toFixed2 (v : value) (expr : jsstring) : error + jsstring :=
  match v with
  | VNum n => inr (num_toFixed2 n)
  | VNull => inl (TypeError (ReadOfNull (lit "toFixed")))
  | VUndefined => inl (TypeError (ReadOfUndefined (lit "toFixed")))
  | _ => inl (TypeError (NotAFunction expr))
  end.

Definition lift {A} (r : error + A) : Out A :=
  match r with inl e => throw e | inr a => ret a end.

Fixpoint for_each {A} (f : A -> Out unit) (l : list A) : Out unit :=
  match l with
  | [] => ret tt
  | x :: l' => f x ;; for_each f l'
  end.

Fixpoint fold_each {S A} (f : S -> A -> Out S) (s : S) (l : list A) : Out S :=
  match l with
  | [] => ret s
  | x :: l' => s' <- f s x ;; fold_each f s' l'
  end.

Fixpoint map_each {A B} (f : A -> Out B) (l : list A) : Out (list B) :=
  match l with
  | [] => ret []
  | x :: l' => y <- f x ;; ys <- map_each f l' ;; ret (y :: ys)
  end.

Definition check_mark : jsstring := [10003%N].
Definition ballot_x : jsstring := [10007%N].
Definition box_line : codeunit := 9472%N.

Definition printSuccess (message : jsstring) : Out unit :=
  console_log (chalk Green check_mark ++ lit " " ++ message).

Definition printError (message : jsstring) : Out unit :=
  console_error (chalk Red ballot_x ++ lit " " ++ message).

(** A column of a table; a formatter is a function of the cell and the row
    that returns a value or throws. *)
Record column := {
  key : jsstring;
  label : jsstring;
  format : option (value -> value -> error + value);
}.

(** [String(col.format ? col.format(row[col.key], row) : (row[col.key] ?? ''))] *)
Definition cell_text (col : column) (row : value) : Out jsstring :=
  v <- property row (key col) ;;
  match format col with
  | Some f => r <- lift (f v row) ;; ret (ToString r)
  | None => ret (ToString (js_coalesce v (VStr [])))
  end.

(** One round of [columns.forEach] in the first pass: the widths object is
    keyed by [col.key]. *)
Definition measure_column (rows : list value) (widths : gmap (list N) nat) (col : column)
    : Out (gmap (list N) nat) :=
  let widths := <[key col := length (label col)]> widths in
  widths <- fold_each (fun (widths : gmap (list N) nat) row =>
              val <- cell_text col row ;;
              ret (match widths !! key col with
                   | Some w => if w <? length val then <[key col := length val]> widths
                               else widths
                   | None => widths
                   end)) widths rows ;;
  ret (<[key col := Nat.min (default 0 (widths !! key col)) 40]> widths).

(** [text.substring(0, widths[col.key]).padEnd(widths[col.key])]; both
    calls leave the text alone when the width is [undefined]. *)
Definition fit (widths : gmap (list N) nat) (col : column) (text : jsstring) : jsstring :=
  match widths !! key col with
  | Some w => padEnd (substring0 text w) w
  | None => text
  end.

Definition header_text (widths : gmap (list N) nat) (columns : list column) : jsstring :=
  join_with (lit "  ")
    (map (fun col => match widths !! key col with
                     | Some w => padEnd (label col) w
                     | None => label col
                     end) columns).

Definition print_row (widths : gmap (list N) nat) (columns : list column) (row : value)
    : Out unit :=
  cells <- map_each (fun col => val <- cell_text col row ;; ret (fit widths col val)) columns ;;
  console_log (join_with (lit "  ") cells).

(** [data.length === 0]. *)
Definition length_is_zero (data : value) : bool :=
  match data with
  | VArr items => bool_decide (items = [])
  | VStr s => bool_decide (s = [])
  | _ => match own_property data (lit "length") with
         | VNum n => num_is n 0
         | _ => false
         end
  end.

(** [data.forEach(f)]: only an array has the method. *)
Definition data_rows (data : value) : Out (list value) :=
  match data with
  | VArr rows => ret rows
  | _ => throw (TypeError (NotAFunction (lit "data.forEach")))
  end.

Definition printTable (data : value) (columns : list column) : Out unit :=
  if negb (truthy data) || length_is_zero data then
    console_log (chalk Yellow (lit "No results found."))
  else
    widths <- fold_each (fun widths col =>
                rows <- data_rows data ;;
                measure_column rows widths col) (∅ : gmap (list N) nat) columns ;;
    let header := header_text widths columns in
    console_log (chalk Bold (chalk Cyan header)) ;;
    console_log (chalk Dim (replicate (length header) box_line)) ;;
    rows <- data_rows data ;;
    for_each (print_row widths columns) rows ;;
    console_log (chalk Dim ([10%N] ++ decimal (length rows) ++ lit " result(s)")).

Definition printJson (data : value) : Out unit :=
  console_log (shown (JSON_stringify2 data)).

Definition withSpinner {A} (message : jsstring) (fn : Out A) : Out A :=
  emit (SpinnerStart message) ;;
  try_catch
    (result <- fn ;; emit SpinnerStop ;; ret result)
    (fun error => emit SpinnerStop ;; throw error).

Definition requireAuth (w : world) : Out unit :=
  configured <- isConfigured w ;;
  if negb configured then
    printError (lit "Climate FieldView credentials not configured.") ;;
    console_log ([10%N] ++ lit "Run the following to configure:") ;;
    console_log (chalk Cyan (lit "  climatecom config set --api-key <key>")) ;;
    process_exit 1
  else ret tt.

(** [data.results || data.data || (Array.isArray(data) ? data : [data])] *)
Definition extract_records (data : value) : Out value :=
  results <- property data (lit "results") ;;
  if truthy results then ret results
  else
    inner <- property data (lit "data") ;;
    if truthy inner then ret inner
    else ret (match data with VArr _ => data | _ => VArr [data] end).

(** *** The column formatters *)

Definition NA : value := VStr (lit "N/A").

(** [(v) => v ? String(v).substring(0, 16) : 'N/A'] *)
Definition format_id (v row : value) : error + value :=
  inr (if truthy v then VStr (substring0 (ToString v) 16) else NA).

(** [(v) => v || 'N/A'] *)
Definition format_text (v row : value) : error + value := inr (js_or v NA).

(** [(v) => v !== undefined ? v.toFixed(2) : 'N/A'] *)
Definition format_fixed (v row : value) : error + value :=
  match v with
  | VUndefined => inr NA
  | _ => match toFixed2 v (lit "v.toFixed") with
         | inl e => inl e
         | inr text => inr (VStr text)
         end
  end.

(** [(v) => v !== undefined ? String(v) : 'N/A'] *)
Definition format_count (v row : value) : error + value :=
  inr (match v with VUndefined => NA | _ => VStr (ToString v) end).

(** [(v) => v ? new Date(v).toLocaleDateString() : 'N/A'] *)
Definition format_date (v row : value) : error + value :=
  inr (if truthy v then VStr (toLocaleDateString v) else NA).

Definition col (k l : string) (f : value -> value -> error + value) : column :=
  {| key := lit k; label := lit l; format := Some f |}.

Definition fields_columns : list column :=
  [col "id" "ID" format_id; col "name" "Name" format_text;
   col "acres" "Acres" format_fixed; col "farmName" "Farm" format_text].

Definition farms_columns : list column :=
  [col "id" "ID" format_id; col "name" "Name" format_text;
   col "fieldCount" "Fields" format_count].

Definition boundaries_columns : list column :=
  [col "id" "ID" format_id; col "fieldName" "Field" format_text;
   col "acres" "Acres" format_fixed].

Definition activity_columns : list column :=
  [col "id" "ID" format_id; col "fieldName" "Field" format_text;
   col "crop" "Crop" format_text; col "startTime" "Start" format_date;
   col "area" "Area (ac)" format_fixed].

(** *** The commands *)

(** The options of a [list] command as commander hands them over:
    [--limit] (a string, ['50'] when the flag is left out) and [--json]. *)
Record list_options := {
  opt_limit : option jsstring;
  opt_json : bool;
}.

Definition options_limit (o : list_options) : jsstring :=
  default (lit "50") (opt_limit o).

(** The handler every action ends with. *)
Definition fail_with (error : error) : Out unit :=
  printError (err_message error) ;; process_exit 1.

(** The five [list] actions differ in the spinner text, the operation and
    the columns. *)
Definition list_action (w : world) (text : jsstring) (operation : world -> value -> Out value)
    (columns : list column) (options : list_options) : Out unit :=
  requireAuth w ;;
  try_catch
    (data <- withSpinner text
               (operation w (VObj [(lit "limit", VNum (parseInt (options_limit options)))])) ;;
     if opt_json options then printJson data
     else
       records <- extract_records data ;;
       printTable records columns)
    fail_with.

(** [v !== undefined ? `${v.toFixed(2)} acres` : 'N/A'] *)
Definition acres_text (v : value) (expr : jsstring) : Out value :=
  match v with
  | VUndefined => ret NA
  | _ => text <- lift (toFixed2 v expr) ;; ret (VStr (text ++ lit " acres"))
  end.

Definition fields_get (w : world) (fieldId : jsstring) (json : bool) : Out unit :=
  requireAuth w ;;
  try_catch
    (field <- withSpinner (lit "Fetching field...") (getField w (VStr fieldId)) ;;
     if json then printJson field
     else
       console_log (chalk Bold ([10%N] ++ lit "Field Details" ++ [10%N])) ;;
       id <- property field (lit "id") ;;
       console_log2 (lit "ID:    ") (VStr (chalk Cyan (ToString (js_or id (VStr fieldId))))) ;;
       name <- property field (lit "name") ;;
       console_log2 (lit "Name:  ") (js_or name NA) ;;
       acres <- property field (lit "acres") ;;
       shown_acres <- acres_text acres (lit "field.acres.toFixed") ;;
       console_log2 (lit "Acres: ") shown_acres ;;
       farmName <- property field (lit "farmName") ;;
       console_log2 (lit "Farm:  ") (js_or farmName NA) ;;
       console_log [])
    fail_with.

Definition fields_create (w : world) (name : jsstring) (acres : option jsstring) (json : bool)
    : Out unit :=
  requireAuth w ;;
  try_catch
    (field <- withSpinner (lit "Creating field...")
                (createField w
                   (VObj [(lit "name", VStr name);
                          (lit "acres",
                           match acres with
                           | Some text =>
                               if truthy (VStr text) then VNum (parseFloat text) else VUndefined
                           | None => VUndefined
                           end)])) ;;
     if json then printJson field
     else
       printSuccess (lit "Field created: " ++ chalk Bold name) ;;
       id <- property field (lit "id") ;;
       console_log2 (lit "Field ID: ") (js_or id NA))
    fail_with.

Definition farms_get (w : world) (farmId : jsstring) (json : bool) : Out unit :=
  requireAuth w ;;
  try_catch
    (farm <- withSpinner (lit "Fetching farm...") (getFarm w (VStr farmId)) ;;
     if json then printJson farm
     else
       console_log (chalk Bold ([10%N] ++ lit "Farm Details" ++ [10%N])) ;;
       id <- property farm (lit "id") ;;
       console_log2 (lit "ID:     ") (VStr (chalk Cyan (ToString (js_or id (VStr farmId))))) ;;
       name <- property farm (lit "name") ;;
       console_log2 (lit "Name:   ") (js_or name NA) ;;
       fieldCount <- property farm (lit "fieldCount") ;;
       console_log2 (lit "Fields: ")
         (match fieldCount with VUndefined => NA | _ => VStr (ToString fieldCount) end) ;;
       console_log [])
    fail_with.

Definition boundaries_get (w : world) (boundaryId : jsstring) (json : bool) : Out unit :=
  requireAuth w ;;
  try_catch
    (boundary <- withSpinner (lit "Fetching boundary...") (getBoundary w (VStr boundaryId)) ;;
     if json then printJson boundary
     else
       console_log (chalk Bold ([10%N] ++ lit "Boundary Details" ++ [10%N])) ;;
       id <- property boundary (lit "id") ;;
       console_log2 (lit "ID:    ") (VStr (chalk Cyan (ToString (js_or id (VStr boundaryId))))) ;;
       fieldName <- property boundary (lit "fieldName") ;;
       console_log2 (lit "Field: ") (js_or fieldName NA) ;;
       acres <- property boundary (lit "acres") ;;
       shown_acres <- acres_text acres (lit "boundary.acres.toFixed") ;;
       console_log2 (lit "Acres: ") shown_acres ;;
       console_log [])
    fail_with.

(** The [get] actions of harvest and planting differ in the spinner text,
    the operation and the title. *)
Definition activity_get (w : world) (text title : jsstring)
    (operation : world -> value -> Out value) (activityId : jsstring) (json : bool)
    : Out unit :=
  requireAuth w ;;
  try_catch
    (activity <- withSpinner text (operation w (VStr activityId)) ;;
     if json then printJson activity
     else
       console_log (chalk Bold ([10%N] ++ title ++ [10%N])) ;;
       id <- property activity (lit "id") ;;
       console_log2 (lit "ID:    ") (VStr (chalk Cyan (ToString (js_or id (VStr activityId))))) ;;
       fieldName <- property activity (lit "fieldName") ;;
       console_log2 (lit "Field: ") (js_or fieldName NA) ;;
       crop <- property activity (lit "crop") ;;
       console_log2 (lit "Crop:  ") (js_or crop NA) ;;
       startTime <- property activity (lit "startTime") ;;
       console_log2 (lit "Start: ")
         (if truthy startTime then VStr (toLocaleString startTime) else NA) ;;
       area <- property activity (lit "area") ;;
       shown_area <- acres_text area (lit "activity.area.toFixed") ;;
       console_log2 (lit "Area:  ") shown_area ;;
       console_log [])
    fail_with.

(** The authenticated commands of the program, with their parsed arguments. *)
Inductive command :=
  | FieldsList (options : list_options)
  | FieldsGet (fieldId : jsstring) (json : bool)
  | FieldsCreate (name : jsstring) (acres : option jsstring) (json : bool)
  | FarmsList (options : list_options)
  | FarmsGet (farmId : jsstring) (json : bool)
  | BoundariesList (options : list_options)
  | BoundariesGet (boundaryId : jsstring) (json : bool)
  | HarvestList (options : list_options)
  | HarvestGet (activityId : jsstring) (json : bool)
  | PlantingList (options : list_options)
  | PlantingGet (activityId : jsstring) (json : bool).

Definition action (w : world) (c : command) : Out unit :=
  match c with
  | FieldsList o => list_action w (lit "Fetching fields...") listFields fields_columns o
  | FieldsGet id json => fields_get w id json
  | FieldsCreate name acres json => fields_create w name acres json
  | FarmsList o => list_action w (lit "Fetching farms...") listFarms farms_columns o
  | FarmsGet id json => farms_get w id json
  | BoundariesList o =>
      list_action w (lit "Fetching boundaries...") listBoundaries boundaries_columns o
  | BoundariesGet id json => boundaries_get w id json
  | HarvestList o =>
      list_action w (lit "Fetching harvest activities...") listHarvestActivities
        activity_columns o
  | HarvestGet id json =>
      activity_get w (lit "Fetching harvest activity...") (lit "Harvest Activity")
        getHarvestActivity id json
  | PlantingList o =>
      list_action w (lit "Fetching planting activities...") listPlantingActivities
        activity_columns o
  | PlantingGet id json =>
      activity_get w (lit "Fetching planting activity...") (lit "Planting Activity")
        getPlantingActivity id json
  end.

(** *** The [config] commands *)

(** [apiKey.slice(-4)] *)
Definition slice_last4 (s : jsstring) : jsstring := drop (length s - 4) s.

(** [config set]: the option is [undefined] when the flag is left out.  The
    command changes the store, so it returns the world it leaves. *)
Definition config_set_action (w : world) (api_key : option jsstring) : world * Out unit :=
  let given := match api_key with Some k => truthy (VStr k) | None => false end in
  (match api_key with
   | Some k => if given then setConfig w (SetApiKey k) else w
   | None => w
   end,
   (if given then printSuccess (lit "API key set") else ret tt) ;;
   (if negb given then printError (lit "No options provided. Use --api-key") else ret tt)).

(** [config show] *)
Definition config_show_action (w : world) : Out unit :=
  getConfig w KApiKey ;;
  let apiKey := apiKey (w_config w) in
  console_log (chalk Bold ([10%N] ++ lit "Climate FieldView CLI Configuration" ++ [10%N])) ;;
  console_log2 (lit "API Key: ")
    (VStr (if truthy (VStr apiKey)
           then chalk Green (replicate 8 42%N ++ slice_last4 apiKey)
           else chalk Red (lit "not set"))) ;;
  console_log [].

End Commands.

(** * The vocabulary of the properties *)

Section Vocabulary.
Context `{Libraries}.

(** ** Runs *)

(** The events [t], then the computation [m]. *)
Definition after {A} (t : list event) (m : Out A) : Out A := (t ++ fst m, snd m).

(** The requests a computation issued, in order. *)
Definition requests {A} (o : Out A) : list request :=
  omap (fun ev => match ev with Request r => Some r | _ => None end) (fst o).

(** What it wrote to standard output. *)
Definition stdout {A} (o : Out A) : list jsstring :=
  omap (fun ev => match ev with Stdout text => Some text | _ => None end) (fst o).

(** ** Errors *)

(** The taxonomy of the specification, and the [Error] the program throws
    for each kind. *)
Inductive error_kind :=
  | AuthenticationError
  | PermissionError
  | NotFoundError
  | RateLimitError
  | ApiError (status : Z) (message : jsstring)
  | NetworkError.

Definition kind_error (k : error_kind) : error :=
  Error
    match k with
    | AuthenticationError => lit "Authentication failed. Check your API key."
    | PermissionError => lit "Access forbidden. Check your API permissions."
    | NotFoundError => lit "Resource not found."
    | RateLimitError => lit "Rate limit exceeded. Please wait before retrying."
    | ApiError status message =>
        lit "API Error (" ++ decimalZ status ++ lit "): " ++ message
    | NetworkError =>
        lit "No response from Climate FieldView API. Check your internet connection."
    end.

(** The message of an [ApiError]: [body.message], else [body.error], else
    the stringified body, where a field counts when it is there and truthy. *)
Definition body_message (body : value) : jsstring :=
  if truthy (optional_property body (lit "message"))
  then ToString (optional_property body (lit "message"))
  else if truthy (optional_property body (lit "error"))
  then ToString (optional_property body (lit "error"))
  else ToString (JSON_stringify body).


(** The kind of a failure with a response, by its status, in the order of
    the specification. *)
Definition failure_kind (status : Z) (body : value) : error_kind :=
  if (status =? 401)%Z then AuthenticationError
  else if (status =? 403)%Z then PermissionError
  else if (status =? 404)%Z then NotFoundError
  else if (status =? 429)%Z then RateLimitError
  else ApiError status (body_message body).

(** ** Requests *)

(** The headers [getClient] sets. *)
Definition auth_headers (w : world) : list (jsstring * jsstring) :=
  [(lit "Authorization", lit "Bearer " ++ apiKey (w_config w));
   (lit "Accept", lit "application/json");
   (lit "Content-Type", lit "application/json")].

(** A request as the client builds it: always to [BASE_URL]. *)
Definition api_request (w : world) (m : http_method) (url : jsstring)
    (params : option (list (jsstring * value))) (body : option value) : request :=
  {| req_method := m; req_baseURL := BASE_URL; req_url := url;
     req_headers := auth_headers w; req_params := params; req_data := body |}.

(** What an operation makes of the reply: the decoded body, or the mapped
    error. *)
Definition operation_result (reply : net_reply) : Out value :=
  try_catch (response <- settle reply ;; ret (data response)) handleApiError.

(** ** Tables *)

(** The text of a cell, when formatting it returns. *)
Definition cell_string (col : column) (row : value) : jsstring :=
  match snd (cell_text col row) with
  | Returned text => text
  | _ => []
  end.

(** Every cell of the table can be formatted: no row is [null] or
    [undefined] and no formatter throws. *)
Definition cells_ok (rows : list value) (columns : list column) : Prop :=
  forall row col, In row rows -> In col columns -> exists text, cell_text col row = ret text.

(** The width of a column as the specification words it. *)
Definition column_width (rows : list value) (col : column) : nat :=
  Nat.min 40
    (Nat.max (length (label col))
             (max_list (map (fun row => length (cell_string col row)) rows))).

(** The widths object after the first pass: a later column with the same
    key overwrites an earlier one. *)
Definition measured (rows : list value) (columns : list column) : gmap (list N) nat :=
  foldl (fun widths col => <[key col := column_width rows col]> widths) ∅ columns.

Definition row_text (widths : gmap (list N) nat) (columns : list column) (row : value)
    : jsstring :=
  join_with (lit "  ") (map (fun col => fit widths col (cell_string col row)) columns).

Definition count_line (n : nat) : jsstring := decimal n ++ lit " result(s)".

(** What [printTable] writes for a table with rows. *)
Definition table_events (widths : gmap (list N) nat) (rows : list value)
    (columns : list column) : list event :=
  [Stdout (chalk Bold (chalk Cyan (header_text widths columns)));
   Stdout (chalk Dim (replicate (length (header_text widths columns)) box_line))]
  ++ map (fun row => Stdout (row_text widths columns row)) rows
  ++ [Stdout (chalk Dim ([10%N] ++ count_line (length rows)))].



(** ** Commands *)

(** What a command does when no API key is stored. *)
Definition not_configured_events : list event :=
  [ConfigGet KApiKey;
   Stderr (chalk Red ballot_x ++ lit " " ++ lit "Climate FieldView credentials not configured.");
   Stdout ([10%N] ++ lit "Run the following to configure:");
   Stdout (chalk Cyan (lit "  climatecom config set --api-key <key>"))].

(** A computation that issues no request. *)
Definition quiet {A} (m : Out A) : Prop := requests m = [].

(** The request of a list operation. *)
Definition list_request (w : world) (path : jsstring) (limit : value) : request :=
  api_request w GET path (Some [(lit "limit", limit)]) None.

(** What is left of a [list] action once the operation has settled. *)
Definition list_finish (columns : list column) (options : list_options)
    (settled : outcome value) : Out unit :=
  match settled with
  | Returned data =>
      try_catch
        (if opt_json options then printJson data
         else records <- extract_records data ;; printTable records columns)
        fail_with
  | Thrown e => fail_with e
  | Exited code => process_exit code
  end.

(** The list operations with their paths. *)
Definition list_endpoints : list ((world -> value -> Out value) * jsstring) :=
  [(listFields, lit "/v4/fields");
   (listFarms, lit "/v4/farms");
   (listBoundaries, lit "/v4/boundaries");
   (listHarvestActivities, lit "/v4/activitySummaries/harvest");
   (listPlantingActivities, lit "/v4/activitySummaries/planting")].

(** The path and the options of a [list] command. *)
Definition as_list_command (c : command) : option (jsstring * list_options) :=
  match c with
  | FieldsList o => Some (lit "/v4/fields", o)
  | FarmsList o => Some (lit "/v4/farms", o)
  | BoundariesList o => Some (lit "/v4/boundaries", o)
  | HarvestList o => Some (lit "/v4/activitySummaries/harvest", o)
  | PlantingList o => Some (lit "/v4/activitySummaries/planting", o)
  | _ => None
  end.

(** The argument of a list operation leaves the limit out. *)
Definition limit_left_out (arg : value) : Prop :=
  arg = VUndefined
  \/ exists fields, arg = VObj fields /\ lookup_field (lit "limit") fields = None.

(** ** The example of [farms list --json] *)

Definition quoted (s : string) : jsstring := [34%N] ++ lit s ++ [34%N].

(** The body of the example and its text at two spaces to the level. *)
Definition farm_a : value :=
  VObj [(lit "id", VStr (lit "a1")); (lit "name", VStr (lit "Farm A"))].

Definition farms_envelope : value := VObj [(lit "results", VArr [farm_a])].

Definition farms_envelope_text : jsstring :=
  join_with [10%N]
    [lit "{";
     lit "  " ++ quoted "results" ++ lit ": [";
     lit "    {";
     lit "      " ++ quoted "id" ++ lit ": " ++ quoted "a1" ++ lit ",";
     lit "      " ++ quoted "name" ++ lit ": " ++ quoted "Farm A";
     lit "    }";
     lit "  ]";
     lit "}"].

(** ** Further vocabulary: commands as a whole *)

(** An event that writes to the terminal. *)
Definition is_output (ev : event) : Prop :=
  match ev with
  | Stdout _ | Stderr _ => True
  | _ => False
  end.

(** A computation that only writes to the terminal and does not end the
    process. *)
Definition prints {A} (m : Out A) : Prop :=
  Forall is_output (fst m) /\ forall code, snd m <> Exited code.

(** The text of the spinner of a command. *)
Definition command_text (c : command) : jsstring :=
  match c with
  | FieldsList _ => lit "Fetching fields..."
  | FieldsGet _ _ => lit "Fetching field..."
  | FieldsCreate _ _ _ => lit "Creating field..."
  | FarmsList _ => lit "Fetching farms..."
  | FarmsGet _ _ => lit "Fetching farm..."
  | BoundariesList _ => lit "Fetching boundaries..."
  | BoundariesGet _ _ => lit "Fetching boundary..."
  | HarvestList _ => lit "Fetching harvest activities..."
  | HarvestGet _ _ => lit "Fetching harvest activity..."
  | PlantingList _ => lit "Fetching planting activities..."
  | PlantingGet _ _ => lit "Fetching planting activity..."
  end.

Definition limit_argument (o : list_options) : value :=
  VObj [(lit "limit", VNum (parseInt (options_limit o)))].

(** The number [fields create] passes for [--acres]. *)
Definition acres_argument (acres : option jsstring) : value :=
  match acres with
  | Some text => if truthy (VStr text) then VNum (parseFloat text) else VUndefined
  | None => VUndefined
  end.

(** The operation a command calls, with its argument. *)
Definition command_call (c : command) : operation :=
  match c with
  | FieldsList o => ListFields (limit_argument o)
  | FieldsGet id _ => GetField (VStr id)
  | FieldsCreate name acres _ =>
      CreateField (VObj [(lit "name", VStr name); (lit "acres", acres_argument acres)])
  | FarmsList o => ListFarms (limit_argument o)
  | FarmsGet id _ => GetFarm (VStr id)
  | BoundariesList o => ListBoundaries (limit_argument o)
  | BoundariesGet id _ => GetBoundary (VStr id)
  | HarvestList o => ListHarvestActivities (limit_argument o)
  | HarvestGet id _ => GetHarvestActivity (VStr id)
  | PlantingList o => ListPlantingActivities (limit_argument o)
  | PlantingGet id _ => GetPlantingActivity (VStr id)
  end.

(** Whether the command was given [--json]. *)
Definition command_json (c : command) : bool :=
  match c with
  | FieldsList o | FarmsList o | BoundariesList o | HarvestList o | PlantingList o =>
      opt_json o
  | FieldsGet _ json | FieldsCreate _ _ json | FarmsGet _ json | BoundariesGet _ json
  | HarvestGet _ json | PlantingGet _ json => json
  end.

(** How an operation ends on a reply. *)
Definition reply_outcome (reply : net_reply) : outcome value :=
  match reply with
  | Reply st body =>
      if ((200 <=? st) && (st <? 300))%Z then Returned body
      else Thrown (kind_error (failure_kind st body))
  | NoReply _ => Thrown (kind_error NetworkError)
  | NotSent msg =>
      Thrown {| err_response := None; err_request := false; err_message := msg |}
  end.

(** ** Further vocabulary: the store *)

(** The key a [setConfig] writes, and the value as [getConfig] returns it. *)
Definition setting_key (s : setting) : config_key :=
  match s with
  | SetApiKey _ => KApiKey
  | SetClientId _ => KClientId
  | SetClientSecret _ => KClientSecret
  | SetAccessToken _ => KAccessToken
  | SetTokenExpiry _ => KTokenExpiry
  | SetBaseUrl _ => KBaseUrl
  end.

Definition setting_value (s : setting) : value :=
  match s with
  | SetApiKey v | SetClientId v | SetClientSecret v | SetAccessToken v | SetBaseUrl v =>
      VStr v
  | SetTokenExpiry v => VNum (num_of_Z v)
  end.

(** ** Further vocabulary: tables *)



(** The columns of a [list] command. *)
Definition as_list_columns (c : command) : option (list column) :=
  match c with
  | FieldsList _ => Some fields_columns
  | FarmsList _ => Some farms_columns
  | BoundariesList _ => Some boundaries_columns
  | HarvestList _ | PlantingList _ => Some activity_columns
  | _ => None
  end.


End Vocabulary.

(** ** A host to run the program on

    Integers and NaN for numbers, a terminal without colours, the messages
    of V8. *)

Module PlainHost.

Inductive num := NaN | Int (z : Z).

Definition is_space (c : codeunit) : bool :=
  ((c =? 32) || ((9 <=? c) && (c <=? 13)))%N.

Fixpoint skip_spaces (s : jsstring) : jsstring :=
  match s with
  | c :: rest => if is_space c then skip_spaces rest else s
  | [] => []
  end.

Definition digit_value (c : codeunit) : option nat :=
  if ((48 <=? c) && (c <=? 57))%N then Some (N.to_nat (c - 48))
  else if ((97 <=? c) && (c <=? 102))%N then Some (N.to_nat (c - 87))
  else if ((65 <=? c) && (c <=? 70))%N then Some (N.to_nat (c - 55))
  else None.

(** The longest prefix of digits of the radix, read as a numeral. *)
Fixpoint parse_digits (radix : nat) (s : jsstring) (acc : option nat) : option nat :=
  match s with
  | [] => acc
  | c :: rest =>
      match digit_value c with
      | Some d =>
          if d <? radix then parse_digits radix rest (Some (d + radix * default 0 acc))
          else acc
      | None => acc
      end
  end.

Definition parse_unsigned (s : jsstring) : option nat :=
  match s with
  | 48%N :: 120%N :: rest | 48%N :: 88%N :: rest => parse_digits 16 rest None
  | _ => parse_digits 10 s None
  end.

Definition parse_int (s : jsstring) : num :=
  match skip_spaces s with
  | 45%N :: rest => from_option (fun n => Int (- Z.of_nat n)) NaN (parse_unsigned rest)
  | 43%N :: rest => from_option (fun n => Int (Z.of_nat n)) NaN (parse_unsigned rest)
  | rest => from_option (fun n => Int (Z.of_nat n)) NaN (parse_unsigned rest)
  end.

Definition to_string (n : num) : jsstring :=
  match n with NaN => lit "NaN" | Int z => decimalZ z end.

Definition to_fixed2 (n : num) : jsstring :=
  match n with NaN => lit "NaN" | Int z => decimalZ z ++ lit ".00" end.

Definition message (f : fault) : jsstring :=
  match f with
  | ReadOfNull p => lit "Cannot read properties of null (reading '" ++ p ++ lit "')"
  | ReadOfUndefined p => lit "Cannot read properties of undefined (reading '" ++ p ++ lit "')"
  | DestructureOfNull p =>
      lit "Cannot destructure property '" ++ p ++ lit "' of 'object null' as it is null."
  | NotAFunction e => e ++ lit " is not a function"
  end.

Lemma parse_digits_acc (u : Decimal.uint) (a : nat) :
  parse_digits 10 (digits u) (Some a) = Some (Nat.of_uint_acc u a).
Proof.
  revert a. induction u; intros a; simpl; try reflexivity;
    rewrite IHu, Nat.tail_mul_spec; do 2 f_equal; simpl; lia.
Qed.

Lemma parse_digits_numeral (u : Decimal.uint) :
  u <> Nil -> parse_digits 10 (digits u) None = Some (Nat.of_uint u).
Proof.
  destruct u; intros Hu; [congruence | ..]; simpl; rewrite parse_digits_acc; reflexivity.
Qed.

Lemma parse_unsigned_numeral (u : Decimal.uint) :
  parse_unsigned (digits u) = parse_digits 10 (digits u) None.
Proof.
  destruct u as [|u| | | | | | | | |]; try reflexivity.
  destruct u; reflexivity.
Qed.

Lemma parse_int_decimal (n : nat) : parse_int (decimal n) = Int (Z.of_nat n).
Proof.
  unfold decimal, parse_int.
  pose proof (to_uint_not_nil n) as Hn.
  assert (Hskip : skip_spaces (digits (Nat.to_uint n)) = digits (Nat.to_uint n))
    by (destruct (Nat.to_uint n); reflexivity).
  rewrite Hskip.
  assert (Hparse : parse_unsigned (digits (Nat.to_uint n)) = Some n).
  { rewrite parse_unsigned_numeral, parse_digits_numeral by assumption.
    now rewrite DecimalNat.Unsigned.of_to. }
  destruct (Nat.to_uint n); try congruence; simpl in *; rewrite Hparse; reflexivity.
Qed.

#[export] Instance host : Host := {|
  number := num;
  num_of_Z := Int;
  num_truthy := fun n => match n with NaN | Int 0 => false | _ => true end;
  num_finite := fun n => match n with NaN => false | Int _ => true end;
  num_to_string := to_string;
  num_toFixed2 := to_fixed2;
  num_is := fun n z => match n with NaN => false | Int z' => (z' =? z)%Z end;
  parseInt := parse_int;
  parseFloat := parse_int;
  parseInt_decimal := parse_int_decimal;
  chalk := fun _ text => text;
  fault_message := message;
|}.

#[export] Instance libraries : Libraries := {|
  inspect := fun v => default (lit "undefined") (serialize [] [] v);
  toLocaleDateString := ToString;
  toLocaleString := ToString;
|}.

End PlainHost.

(** ** Runs on the plain host *)

Import PlainHost.

Definition test_key : jsstring := lit "k3y".

Definition configured : config :=
  config_set default_config (SetApiKey test_key).

(** A world whose network answers every request the same. *)
Definition answering (c : config) (reply : net_reply) : world :=
  {| w_config := c; w_net := fun _ => reply; w_now := 1700000000000 |}.

Definition farms_world : world := answering configured (Reply 200 farms_envelope).

Definition json_options : list_options := {| opt_limit := None; opt_json := true |}.


(** A table with one long value. *)
Definition long_name : jsstring :=
  lit "Lower meadow behind the old orchard, east of the creek".

Definition two_farms : list value :=
  [farm_a; VObj [(lit "id", VStr (lit "b2")); (lit "name", VStr long_name)]].





(** A store without a key. *)
Definition fresh_world : world := answering default_config (Reply 200 farms_envelope).

(** Worlds whose network answers 404, a [null] body, and the body of a
    created field. *)
Definition not_found_world : world := answering configured (Reply 404 VNull).

Definition null_world : world := answering configured (Reply 200 VNull).

Definition north_field : value :=
  VObj [(lit "id", VStr (lit "f1")); (lit "name", VStr (lit "North Field"))].

Definition created_world : world := answering configured (Reply 201 north_field).

Definition text_options : list_options := {| opt_limit := None; opt_json := false |}.

(** A store with a token that expires two minutes after the clock of
    [answering]. *)
Definition with_token : config :=
  config_set (config_set default_config (SetAccessToken (lit "t0k3n")))
    (SetTokenExpiry 1700000120000).

(** The option [--acres 120]. *)
Definition acres_option : option jsstring := Some (lit "120").

(** * Properties *)

Section Properties.
Context `{Libraries}.

(** ** Computations *)

Lemma bind_ret {A B} (a : A) (k : A -> Out B) : (x <- ret a ;; k x) = k a.
Proof. unfold bind, ret. now destruct (k a). Qed.

Lemma bind_throw {A B} (e : error) (k : A -> Out B) : (x <- throw e ;; k x) = throw e.
Proof. reflexivity. Qed.

Lemma bind_emit {B} (ev : event) (k : Out B) : (emit ev ;; k) = (ev :: fst k, snd k).
Proof. unfold bind, emit. now destruct k. Qed.

Lemma bind_returned {A B} (t : list event) (a : A) (k : A -> Out B) :
  (x <- (t, Returned a) ;; k x) = (t ++ fst (k a), snd (k a)).
Proof. unfold bind. now destruct (k a). Qed.

Lemma try_catch_ret {A} (a : A) (handler : error -> Out A) :
  try_catch (ret a) handler = ret a.
Proof. reflexivity. Qed.

Lemma after_nil {A} (m : Out A) : after [] m = m.
Proof. now destruct m. Qed.


Lemma emit_after {A} (ev : event) (m : Out A) : (emit ev ;; m) = after [ev] m.
Proof. now destruct m. Qed.

Lemma bind_after {A B} (t : list event) (m : Out A) (k : A -> Out B) :
  (x <- after t m ;; k x) = after t (x <- m ;; k x).
Proof.
  destruct m as [t' [a|e|c]]; unfold after, bind; simpl; [|reflexivity..].
  destruct (k a). simpl. now rewrite app_assoc.
Qed.

Lemma try_catch_after {A} (t : list event) (m : Out A) (handler : error -> Out A) :
  try_catch (after t m) handler = after t (try_catch m handler).
Proof.
  destruct m as [t' [a|e|c]]; unfold after, try_catch; simpl; [reflexivity| |reflexivity].
  destruct (handler e). simpl. now rewrite app_assoc.
Qed.

Lemma bind_assoc {A B C} (m : Out A) (k : A -> Out B) (k' : B -> Out C) :
  (y <- (x <- m ;; k x) ;; k' y) = (x <- m ;; y <- k x ;; k' y).
Proof.
  destruct m as [t [a|e|c]]; unfold bind; simpl; [|reflexivity..].
  destruct (k a) as [t' [b|e|c]]; simpl; [|reflexivity..].
  destruct (k' b). now rewrite app_assoc.
Qed.

(** ** The configuration store *)

(** C8: [hasValidToken()] reads the token and its expiry and answers true
    exactly when the token is not empty and the expiry lies more than 60000
    milliseconds after the current time. *)
Theorem hasValidToken_iff (w : world) :
  exists answer : bool,
    hasValidToken w = ([ConfigGet KAccessToken; ConfigGet KTokenExpiry], Returned answer)
    /\ (answer = true <->
        accessToken (w_config w) <> []
        /\ (tokenExpiry (w_config w) - w_now w > 60000)%Z).
Proof.
  unfold hasValidToken, getConfig. simpl.
  destruct (accessToken (w_config w)) as [|c token] eqn:Htoken; simpl.
  - exists false. split; [reflexivity|]. split; [discriminate | intros [[] _]; reflexivity].
  - eexists. split; [reflexivity|].
    rewrite Z.ltb_lt. split; [intros; split; [discriminate | lia] | intros [_ ?]; lia].
Qed.

(** ** The error mapping *)

Lemma handleApiError_throws {A} (e : error) : exists thrown, @handleApiError _ A e = throw thrown.
Proof.
  unfold handleApiError.
  destruct (err_response e) as [[status body]|]; [|destruct (err_request e)];
    repeat (match goal with |- context [if ?b then _ else _] => destruct b end);
    eexists; reflexivity.
Qed.

Lemma handleApiError_kind {A} (e : error) (st : Z) (body : value) :
  err_response e = Some (st, body) ->
  @handleApiError _ A e = throw (kind_error (failure_kind st body)).
Proof.
  intros He. unfold handleApiError, failure_kind. rewrite He.
  repeat (match goal with |- context [if ?b then _ else _] => destruct b end);
    try reflexivity.
  unfold kind_error, body_message, js_or.
  destruct (truthy (optional_property body (lit "message"))) eqn:Hm; simpl.
  - now rewrite Hm.
  - now destruct (truthy (optional_property body (lit "error"))).
Qed.


(** ** The operations of the client *)

Ltac handler_throws :=
  match goal with
  | |- context [@handleApiError ?H ?A ?e] =>
      let thrown := fresh "thrown" in
      destruct (@handleApiError_throws A e) as [thrown ->]
  end.

Lemma operation_result_silent (reply : net_reply) : fst (operation_result reply) = [].
Proof.
  unfold operation_result.
  destruct reply as [st d|msg|msg]; unfold settle;
    [destruct ((200 <=? st) && (st <? 300))%Z; [reflexivity|] | |];
    rewrite bind_throw; unfold throw at 1, try_catch; handler_throws; reflexivity.
Qed.

Lemma getClient_run (w : world) :
  getClient w = ([ConfigGet KApiKey],
                 Returned {| client_baseURL := BASE_URL; client_headers := auth_headers w |}).
Proof. reflexivity. Qed.

Lemma call_and_map (w : world) (c : client) (m : http_method) (url : jsstring)
    (params : option (list (jsstring * value))) (body : option value) :
  let r := {| req_method := m; req_baseURL := client_baseURL c; req_url := url;
              req_headers := client_headers c; req_params := params; req_data := body |} in
  try_catch (response <- axios_call w c m url params body ;; ret (data response))
            handleApiError
  = ([Request r], snd (operation_result (w_net w r))).
Proof.
  intros r. unfold axios_call. fold r.
  rewrite emit_after, bind_after, try_catch_after.
  fold (operation_result (w_net w r)).
  unfold after. now rewrite operation_result_silent.
Qed.

Lemma list_operation_run (path : jsstring) (w : world) (arg limit : value) :
  limit_parameter arg = ret limit ->
  list_operation path w arg
  = ([ConfigGet KApiKey; Request (api_request w GET path (Some [(lit "limit", limit)]) None)],
     snd (operation_result
            (w_net w (api_request w GET path (Some [(lit "limit", limit)]) None)))).
Proof.
  intros Hlimit. unfold list_operation. rewrite Hlimit, bind_ret, getClient_run, bind_returned.
  unfold client_get. rewrite call_and_map. reflexivity.
Qed.

Lemma get_operation_run (path : jsstring) (w : world) (id : value) :
  get_operation path w id
  = ([ConfigGet KApiKey; Request (api_request w GET (path ++ ToString id) None None)],
     snd (operation_result (w_net w (api_request w GET (path ++ ToString id) None None)))).
Proof.
  unfold get_operation. rewrite getClient_run, bind_returned.
  unfold client_get. rewrite call_and_map. reflexivity.
Qed.

Lemma createField_run (w : world) (arg : value) :
  arg <> VNull ->
  exists body,
    createField w arg
    = ([ConfigGet KApiKey; Request (api_request w POST (lit "/v4/fields") None (Some body))],
       snd (operation_result
              (w_net w (api_request w POST (lit "/v4/fields") None (Some body))))).
Proof.
  intros Harg. unfold createField.
  destruct arg; try congruence; eexists; rewrite bind_ret, getClient_run, bind_returned;
    unfold client_post; rewrite call_and_map; reflexivity.
Qed.

Lemma limit_parameter_cases (arg : value) :
  (exists limit, limit_parameter arg = ret limit)
  \/ (exists e, limit_parameter arg = throw e).
Proof.
  unfold limit_parameter.
  destruct arg; try (left; eexists; reflexivity); try (right; eexists; reflexivity);
    match goal with |- context [match ?v with _ => _ end] => destruct v end;
    left; eexists; reflexivity.
Qed.

(** What an operation asks of the network: nothing, or one request to the
    fixed base address. *)
Lemma call_requests (w : world) (op : operation) :
  requests (call w op) = []
  \/ exists m url params body, requests (call w op) = [api_request w m url params body].
Proof.
  destruct op; simpl;
    unfold listFields, listFarms, listBoundaries, listHarvestActivities,
      listPlantingActivities, getField, getFarm, getBoundary, getHarvestActivity,
      getPlantingActivity.
  all: try (right; rewrite get_operation_run; do 4 eexists; reflexivity).
  all: try (destruct (limit_parameter_cases arg) as [[limit Hl]|[e He]];
    [ right; rewrite (list_operation_run _ _ _ _ Hl); do 4 eexists; reflexivity
    | left; unfold list_operation; rewrite He; reflexivity ]).
  assert (Hnull : arg = VNull \/ arg <> VNull) by (destruct arg; auto; right; discriminate).
  destruct Hnull as [->|Hnn]; [left; reflexivity|].
  right. destruct (createField_run w arg Hnn) as [body ->]. do 4 eexists; reflexivity.
Qed.

(** C10: every request of every operation goes to the constant base
    address, and a run does not depend on the stored [baseUrl]: after
    [setConfig('baseUrl', url)] an operation causes the same events, the
    same requests among them, and ends the same way. *)
Theorem base_url_is_fixed (w : world) (op : operation) :
  Forall (fun r => req_baseURL r = lit "https://platform.climate.com") (requests (call w op))
  /\ forall url : jsstring, call (setConfig w (SetBaseUrl url)) op = call w op.
Proof.
  split.
  - destruct (call_requests w op) as [->|(m & url & params & body & ->)].
    + constructor.
    + repeat constructor.
  - intros url. destruct op; reflexivity.
Qed.

(** ** The table renderer *)

Lemma cell_text_ok (col : column) (row : value) (text : jsstring) :
  cell_text col row = ret text -> cell_string col row = text.
Proof. unfold cell_string. now intros ->. Qed.

Lemma fold_each_ret {S A} (f : S -> A -> Out S) (g : S -> A -> S) (l : list A) :
  forall s, (forall s x, In x l -> f s x = ret (g s x)) ->
  fold_each f s l = ret (foldl g s l).
Proof.
  induction l as [|x l IH]; intros s Hf; simpl; [reflexivity|].
  rewrite Hf, bind_ret by (now left). apply IH. intros; apply Hf; now right.
Qed.

Lemma map_each_ret {A B} (f : A -> Out B) (g : A -> B) (l : list A) :
  (forall x, In x l -> f x = ret (g x)) -> map_each f l = ret (map g l).
Proof.
  induction l as [|x l IH]; intros Hf; simpl; [reflexivity|].
  rewrite Hf, bind_ret by (now left).
  rewrite IH by (intros; apply Hf; now right). now rewrite bind_ret.
Qed.

Lemma for_each_emit {A} (f : A -> Out unit) (g : A -> event) (l : list A) :
  (forall x, In x l -> f x = emit (g x)) -> for_each f l = (map g l, Returned tt).
Proof.
  induction l as [|x l IH]; intros Hf; simpl; [reflexivity|].
  rewrite Hf, bind_emit by (now left).
  rewrite IH by (intros; apply Hf; now right). reflexivity.
Qed.

(** The inner loop keeps the largest length seen so far under the key of
    the column. *)
Lemma measure_rows (col : column) (rows : list value) :
  (forall row, In row rows -> exists text, cell_text col row = ret text) ->
  forall (widths : gmap (list N) nat) (w : nat),
    widths !! key col = Some w ->
    fold_each (fun (widths : gmap (list N) nat) row =>
                 val <- cell_text col row ;;
                 ret (match widths !! key col with
                      | Some w => if w <? length val then <[key col := length val]> widths
                                  else widths
                      | None => widths
                      end)) widths rows
    = ret (<[key col := Nat.max w (max_list (map (fun row => length (cell_string col row)) rows))]>
             widths).
Proof.
  induction rows as [|row rows IH]; intros Hok widths w Hw; simpl.
  - rewrite Nat.max_0_r. now rewrite insert_id.
  - destruct (Hok row (or_introl eq_refl)) as [text Htext].
    rewrite (cell_text_ok _ _ _ Htext), Htext, !bind_ret, Hw.
    destruct (Nat.ltb_spec w (length text)) as [Hlt|Hge].
    + rewrite (IH (fun r Hr => Hok r (or_intror Hr)) _ (length text))
        by apply lookup_insert_eq.
      rewrite insert_insert_eq. do 2 f_equal. lia.
    + rewrite (IH (fun r Hr => Hok r (or_intror Hr)) _ w Hw).
      do 2 f_equal. lia.
Qed.

Lemma measure_column_ok (rows : list value) (widths : gmap (list N) nat) (col : column) :
  (forall row, In row rows -> exists text, cell_text col row = ret text) ->
  measure_column rows widths col = ret (<[key col := column_width rows col]> widths).
Proof.
  intros Hok. unfold measure_column.
  rewrite (measure_rows col rows Hok _ (length (label col))) by apply lookup_insert_eq.
  rewrite bind_ret, lookup_insert_eq, !insert_insert_eq. simpl.
  unfold column_width. now rewrite Nat.min_comm.
Qed.

Lemma first_pass (rows : list value) (columns : list column) :
  cells_ok rows columns ->
  fold_each (fun widths col => rows <- data_rows (VArr rows) ;; measure_column rows widths col)
            (∅ : gmap (list N) nat) columns
  = ret (measured rows columns).
Proof.
  intros Hok. unfold measured. apply fold_each_ret.
  intros widths col Hcol. unfold data_rows. rewrite bind_ret.
  apply measure_column_ok. intros row Hrow. now apply Hok.
Qed.

Lemma print_row_ok (widths : gmap (list N) nat) (columns : list column) (row : value) :
  (forall col, In col columns -> exists text, cell_text col row = ret text) ->
  print_row widths columns row = emit (Stdout (row_text widths columns row)).
Proof.
  intros Hok. unfold print_row.
  rewrite (map_each_ret _ (fun col => fit widths col (cell_string col row))).
  - now rewrite bind_ret.
  - intros col Hcol. destruct (Hok col Hcol) as [text Htext].
    now rewrite (cell_text_ok _ _ _ Htext), Htext, bind_ret.
Qed.

(** The run of [printTable] on a table with rows whose cells can all be
    formatted. *)
Lemma printTable_run (rows : list value) (columns : list column) :
  rows <> [] -> cells_ok rows columns ->
  printTable (VArr rows) columns
  = (table_events (measured rows columns) rows columns, Returned tt).
Proof.
  intros Hrows Hok. unfold printTable.
  assert (Hsome : negb (truthy (VArr rows)) || length_is_zero (VArr rows) = false)
    by (simpl; now apply bool_decide_eq_false_2).
  rewrite Hsome, (first_pass rows columns Hok), bind_ret.
  unfold console_log, data_rows. rewrite !bind_emit, bind_ret.
  rewrite (for_each_emit _ (fun row => Stdout (row_text (measured rows columns) columns row))).
  - reflexivity.
  - intros row Hrow. apply print_row_ok. intros col Hcol. now apply Hok.
Qed.

Lemma printTable_empty (data : value) (columns : list column) :
  truthy data = false \/ data = VArr [] ->
  printTable data columns = ([Stdout (chalk Yellow (lit "No results found."))], Returned tt).
Proof.
  intros [Hfalsy| ->]; unfold printTable; [rewrite Hfalsy|]; reflexivity.
Qed.


(** *** Widths *)






(** *** Cells *)



(** ** Record extraction *)

Lemma decimal_head (i : nat) :
  exists c rest, decimal i = c :: rest /\ (48 <= c <= 57)%N.
Proof.
  unfold decimal. pose proof (to_uint_not_nil i) as Hnil.
  destruct (Nat.to_uint i); [congruence|..]; simpl; do 2 eexists; split;
    try reflexivity; lia.
Qed.

(** A key that does not start with a digit names no element. *)
Lemma index_of_key_word (c : N) (k : jsstring) (len : nat) :
  (c < 48 \/ 57 < c)%N -> index_of_key (c :: k) len = None.
Proof.
  intros Hc. unfold index_of_key. generalize 0 as start.
  induction len as [|len IH]; intros start; simpl; [reflexivity|].
  rewrite bool_decide_eq_false_2; [apply IH|].
  destruct (decimal_head start) as (d & rest & -> & Hd). intros Heq.
  inversion Heq; subst. lia.
Qed.

Lemma array_results (items : list value) :
  own_property (VArr items) (lit "results") = VUndefined.
Proof.
  unfold own_property. rewrite decide_False by discriminate.
  change (lit "results") with (114%N :: lit "esults").
  rewrite index_of_key_word by lia. reflexivity.
Qed.

Lemma array_data (items : list value) :
  own_property (VArr items) (lit "data") = VUndefined.
Proof.
  unfold own_property. rewrite decide_False by discriminate.
  change (lit "data") with (100%N :: lit "ata").
  rewrite index_of_key_word by lia. reflexivity.
Qed.

Lemma property_defined (v : value) (k : jsstring) :
  nullish v = false -> property v k = ret (own_property v k).
Proof. now destruct v. Qed.

(** C3: on each of the four shapes the extraction returns, without an
    event and without an exception: the sequence under [results]; else the
    sequence under [data]; a bare sequence as it is; a bare object as the
    sequence of that one object.  And it returns on every body other than
    [null] and [undefined]. *)
Theorem extract_records_total :
  (forall fields records,
      lookup_field (lit "results") fields = Some (VArr records) ->
      extract_records (VObj fields) = ret (VArr records))
  /\ (forall fields records,
      lookup_field (lit "results") fields = None ->
      lookup_field (lit "data") fields = Some (VArr records) ->
      extract_records (VObj fields) = ret (VArr records))
  /\ (forall items, extract_records (VArr items) = ret (VArr items))
  /\ (forall fields,
      lookup_field (lit "results") fields = None ->
      lookup_field (lit "data") fields = None ->
      extract_records (VObj fields) = ret (VArr [VObj fields]))
  /\ (forall body, nullish body = false -> exists records, extract_records body = ret records).
Proof.
  repeat split.
  - intros fields records Hr. unfold extract_records.
    rewrite !property_defined, bind_ret by reflexivity. simpl. now rewrite Hr.
  - intros fields records Hr Hd. unfold extract_records.
    rewrite !property_defined, bind_ret by reflexivity. simpl. now rewrite Hr, Hd.
  - intros items. unfold extract_records.
    rewrite !property_defined, bind_ret, array_results by reflexivity.
    simpl truthy. cbv iota. now rewrite bind_ret, array_data.
  - intros fields Hr Hd. unfold extract_records.
    rewrite !property_defined, bind_ret by reflexivity. simpl. now rewrite Hr, Hd.
  - intros body Hbody. unfold extract_records.
    rewrite !property_defined, bind_ret by assumption.
    destruct (truthy (own_property body (lit "results"))); [eexists; reflexivity|].
    rewrite bind_ret.
    destruct (truthy (own_property body (lit "data"))); eexists; reflexivity.
Qed.

(** ** The command layer *)

Lemma requireAuth_configured (w : world) :
  apiKey (w_config w) <> [] -> requireAuth w = ([ConfigGet KApiKey], Returned tt).
Proof.
  intros Hkey. unfold requireAuth, isConfigured, getConfig. simpl.
  now rewrite bool_decide_eq_false_2.
Qed.

Lemma requireAuth_not_configured (w : world) :
  apiKey (w_config w) = [] -> requireAuth w = (not_configured_events, Exited 1%Z).
Proof.
  intros Hkey. unfold requireAuth, isConfigured, getConfig. simpl.
  now rewrite Hkey.
Qed.

Lemma requireAuth_first (w : world) :
  exists rest, fst (requireAuth w) = ConfigGet KApiKey :: rest.
Proof.
  destruct (apiKey (w_config w)) as [|c key] eqn:Hkey.
  - rewrite requireAuth_not_configured by assumption. eexists; reflexivity.
  - rewrite requireAuth_configured by (rewrite Hkey; discriminate). eexists; reflexivity.
Qed.

Lemma guarded_first {A} (w : world) (m : Out A) :
  exists rest, fst (requireAuth w ;; m) = ConfigGet KApiKey :: rest.
Proof.
  destruct (requireAuth_first w) as [rest Hrest].
  destruct (requireAuth w) as [t [[]|e|code]]; simpl in *; subst t;
    [destruct m|..]; eexists; reflexivity.
Qed.

Lemma guarded_not_configured {A} (w : world) (m : Out A) :
  apiKey (w_config w) = [] -> (requireAuth w ;; m) = (not_configured_events, Exited 1%Z).
Proof. intros Hkey. now rewrite requireAuth_not_configured. Qed.

(** C7: every authenticated command begins by reading the API key, before
    anything else happens; when the key is empty it writes the fixed
    message and ends the process with status 1, and no request is issued. *)
Theorem requireAuth_guards (w : world) (c : command) :
  (exists rest, fst (action w c) = ConfigGet KApiKey :: rest)
  /\ (apiKey (w_config w) = [] ->
      action w c = (not_configured_events, Exited 1%Z)
      /\ requests (action w c) = []).
Proof.
  split.
  - destruct c; apply guarded_first.
  - intros Hkey.
    assert (Hrun : action w c = (not_configured_events, Exited 1%Z))
      by (destruct c; now apply guarded_not_configured).
    split; [exact Hrun|]. now rewrite Hrun.
Qed.

(** *** Computations that issue no request *)

Lemma requests_bind {A B} (m : Out A) (k : A -> Out B) :
  requests (x <- m ;; k x)
  = requests m ++ match snd m with Returned a => requests (k a) | _ => [] end.
Proof.
  destruct m as [t [a|e|c]]; unfold requests, bind; simpl;
    [destruct (k a); simpl; apply omap_app | ..]; now rewrite app_nil_r.
Qed.

Lemma requests_try_catch {A} (m : Out A) (handler : error -> Out A) :
  requests (try_catch m handler)
  = requests m ++ match snd m with Thrown e => requests (handler e) | _ => [] end.
Proof.
  destruct m as [t [a|e|c]]; unfold requests, try_catch; simpl;
    [|destruct (handler e); simpl; apply omap_app|]; now rewrite app_nil_r.
Qed.

Lemma quiet_bind {A B} (m : Out A) (k : A -> Out B) :
  quiet m -> (forall a, quiet (k a)) -> quiet (x <- m ;; k x).
Proof.
  unfold quiet. intros Hm Hk. rewrite requests_bind, Hm.
  destruct (snd m); [apply Hk | reflexivity..].
Qed.

Lemma quiet_try_catch {A} (m : Out A) (handler : error -> Out A) :
  quiet m -> (forall e, quiet (handler e)) -> quiet (try_catch m handler).
Proof.
  unfold quiet. intros Hm Hh. rewrite requests_try_catch, Hm.
  destruct (snd m); [reflexivity | apply Hh | reflexivity].
Qed.

Lemma quiet_fold_each {S A} (f : S -> A -> Out S) (l : list A) :
  (forall s x, quiet (f s x)) -> forall s, quiet (fold_each f s l).
Proof.
  intros Hf. induction l as [|x l IH]; intros s; simpl; [reflexivity|].
  apply quiet_bind; [apply Hf | apply IH].
Qed.

Lemma quiet_for_each {A} (f : A -> Out unit) (l : list A) :
  (forall x, quiet (f x)) -> quiet (for_each f l).
Proof.
  intros Hf. induction l as [|x l IH]; simpl; [reflexivity|].
  apply quiet_bind; [apply Hf | intros _; apply IH].
Qed.

Lemma quiet_map_each {A B} (f : A -> Out B) (l : list A) :
  (forall x, quiet (f x)) -> quiet (map_each f l).
Proof.
  intros Hf. induction l as [|x l IH]; simpl; [reflexivity|].
  apply quiet_bind; [apply Hf | intros y].
  apply quiet_bind; [apply IH | reflexivity].
Qed.

Lemma quiet_lift {A} (r : error + A) : quiet (lift r).
Proof. now destruct r. Qed.

Lemma quiet_property (v : value) (k : jsstring) : quiet (property v k).
Proof. now destruct v. Qed.

(** Breaks a computation down into parts that are quiet on sight. *)
Ltac quiet_step :=
  first
    [ reflexivity
    | apply quiet_lift
    | apply quiet_property
    | apply quiet_bind
    | apply quiet_try_catch
    | apply quiet_fold_each
    | apply quiet_for_each
    | apply quiet_map_each
    | progress intros
    | match goal with
      | |- quiet (if ?b then _ else _) => destruct b
      | |- quiet (match ?x with _ => _ end) => destruct x
      end ].

Ltac quiet_all := repeat quiet_step.

Lemma quiet_cell_text (col : column) (row : value) : quiet (cell_text col row).
Proof. unfold cell_text. quiet_all. Qed.

Lemma quiet_printTable (data : value) (columns : list column) :
  quiet (printTable data columns).
Proof.
  unfold printTable, measure_column, print_row, data_rows, console_log.
  quiet_all; apply quiet_cell_text.
Qed.

Lemma quiet_extract_records (data : value) : quiet (extract_records data).
Proof. unfold extract_records. quiet_all. Qed.

Lemma quiet_fail_with (e : error) : quiet (fail_with e).
Proof. reflexivity. Qed.

Lemma quiet_printJson (data : value) : quiet (printJson data).
Proof. reflexivity. Qed.

(** *** The [list] commands *)

Lemma limit_given (fields : list (jsstring * value)) (limit : value) :
  lookup_field (lit "limit") fields = Some limit -> limit <> VUndefined ->
  limit_parameter (VObj fields) = ret limit.
Proof.
  intros Hl Hdef. unfold limit_parameter, own_property. rewrite Hl. simpl.
  now destruct limit.
Qed.

Lemma limit_omitted (arg : value) :
  arg = VUndefined
  \/ (exists fields, arg = VObj fields /\ lookup_field (lit "limit") fields = None) ->
  limit_parameter arg = ret (VNum (num_of_Z 50)).
Proof.
  intros [->|(fields & -> & Hl)]; [reflexivity|].
  unfold limit_parameter, own_property. now rewrite Hl.
Qed.

Lemma withSpinner_run {A} (text : jsstring) (t : list event) (o : outcome A) :
  withSpinner text (t, o)
  = (SpinnerStart text :: t ++ match o with Exited _ => [] | _ => [SpinnerStop] end, o).
Proof.
  unfold withSpinner. rewrite emit_after.
  destruct o as [a|e|code]; unfold after, bind, try_catch; simpl;
    now rewrite ?app_nil_r.
Qed.

Lemma try_bind_outcome {A B} (t : list event) (o : outcome A) (k : A -> Out B)
    (handler : error -> Out B) :
  try_catch (x <- (t, o) ;; k x) handler
  = after t match o with
            | Returned a => try_catch (k a) handler
            | Thrown e => handler e
            | Exited code => process_exit code
            end.
Proof.
  destruct o as [a|e|code].
  - rewrite bind_returned. fold (after t (k a)). apply try_catch_after.
  - unfold after, bind, try_catch. now destruct (handler e).
  - unfold after. simpl. now rewrite app_nil_r.
Qed.

Lemma operation_result_settles (reply : net_reply) :
  match snd (operation_result reply) with Exited _ => False | _ => True end.
Proof.
  unfold operation_result.
  destruct reply as [st d|msg|msg]; unfold settle;
    [destruct ((200 <=? st) && (st <? 300))%Z; [exact I|] | |];
    rewrite bind_throw; unfold throw at 1, try_catch; handler_throws; exact I.
Qed.

Lemma list_action_run (w : world) (text path : jsstring) (columns : list column)
    (options : list_options) :
  apiKey (w_config w) <> [] ->
  let r := list_request w path (VNum (parseInt (options_limit options))) in
  list_action w text (list_operation path) columns options
  = after [ConfigGet KApiKey; SpinnerStart text; ConfigGet KApiKey; Request r; SpinnerStop]
      (list_finish columns options (snd (operation_result (w_net w r)))).
Proof.
  intros Hkey r. unfold list_action.
  rewrite (requireAuth_configured w Hkey), bind_returned.
  rewrite (list_operation_run path w _ (VNum (parseInt (options_limit options))))
    by now apply limit_given.
  fold (list_request w path (VNum (parseInt (options_limit options)))). fold r.
  rewrite withSpinner_run, try_bind_outcome.
  pose proof (operation_result_settles (w_net w r)) as Hsettles.
  unfold list_finish.
  destruct (snd (operation_result (w_net w r))) as [data|e|code]; [| |destruct Hsettles];
    unfold after; simpl; reflexivity.
Qed.

Lemma list_action_requests (w : world) (text path : jsstring) (columns : list column)
    (options : list_options) :
  apiKey (w_config w) <> [] ->
  requests (list_action w text (list_operation path) columns options)
  = [list_request w path (VNum (parseInt (options_limit options)))].
Proof.
  intros Hkey. rewrite list_action_run by assumption.
  assert (Hquiet : forall o, quiet (list_finish columns options o)).
  { intros [data|e|code]; unfold list_finish; [|reflexivity..].
    apply quiet_try_catch; [|intros; apply quiet_fail_with].
    destruct (opt_json options); [apply quiet_printJson|].
    apply quiet_bind; [apply quiet_extract_records | intros; apply quiet_printTable]. }
  unfold requests, after. simpl. f_equal. apply Hquiet.
Qed.

Lemma list_endpoint_operation (op : world -> value -> Out value) (path : jsstring) :
  In (op, path) list_endpoints -> op = list_operation path.
Proof.
  unfold list_endpoints. simpl.
  intros [Heq|[Heq|[Heq|[Heq|[Heq|[]]]]]]; now inversion Heq.
Qed.

Lemma as_list_command_action (w : world) (c : command) (path : jsstring)
    (options : list_options) :
  as_list_command c = Some (path, options) ->
  exists text columns, action w c = list_action w text (list_operation path) columns options.
Proof.
  destruct c; simpl; intros Heq; inversion Heq; subst; do 2 eexists; reflexivity.
Qed.

(** C9: a list operation given the limit [L] issues one request, with the
    query parameter [limit] equal to [L], and with 50 when the limit is
    left out.  A configured [list] command issues one request, whose
    limit is the number read from the [--limit] option: the number a
    decimal numeral denotes, and 50 when the option is left out. *)
Theorem list_limit (w : world) :
  (forall op path, In (op, path) list_endpoints ->
     (forall fields L,
         lookup_field (lit "limit") fields = Some L -> L <> VUndefined ->
         requests (op w (VObj fields)) = [list_request w path L])
     /\ (forall arg, limit_left_out arg ->
         requests (op w arg) = [list_request w path (VNum (num_of_Z 50))]))
  /\ (forall c path options,
        as_list_command c = Some (path, options) -> apiKey (w_config w) <> [] ->
        requests (action w c)
        = [list_request w path (VNum (parseInt (options_limit options)))]
        /\ (opt_limit options = None -> parseInt (options_limit options) = num_of_Z 50)
        /\ (forall n : nat, opt_limit options = Some (decimal n) ->
              parseInt (options_limit options) = num_of_Z (Z.of_nat n))).
Proof.
  split.
  - intros op path Hin. rewrite (list_endpoint_operation op path Hin). split.
    + intros fields L Hl Hdef.
      now rewrite (list_operation_run path w _ L (limit_given fields L Hl Hdef)).
    + intros arg Harg.
      now rewrite (list_operation_run path w _ _ (limit_omitted arg Harg)).
  - intros c path options Hc Hkey.
    destruct (as_list_command_action w c path options Hc) as (text & columns & ->).
    split; [now apply list_action_requests|]. unfold options_limit. split.
    + intros ->. simpl. change (lit "50") with (decimal 50). apply parseInt_decimal.
    + intros n ->. simpl. apply parseInt_decimal.
Qed.

(** *** Failures through axios *)

(** A reply outside 200..299 makes every operation throw the error of its
    kind; no reply, the network error; a request that was never sent, the
    error axios gave. *)
Lemma operation_result_failure (reply : net_reply) :
  operation_result reply
  = match reply with
    | Reply st body =>
        if ((200 <=? st) && (st <? 300))%Z then ret body
        else throw (kind_error (failure_kind st body))
    | NoReply _ => throw (kind_error NetworkError)
    | NotSent msg =>
        throw {| err_response := None; err_request := false; err_message := msg |}
    end.
Proof.
  unfold operation_result.
  destruct reply as [st body|msg|msg]; unfold settle; [|reflexivity..].
  destruct ((200 <=? st) && (st <? 300))%Z; [reflexivity|].
  rewrite bind_throw. unfold throw at 1, try_catch.
  match goal with |- context [@handleApiError _ ?A ?e] =>
    rewrite (@handleApiError_kind A e st body) by reflexivity
  end.
  reflexivity.
Qed.

(** *** [farms list --json] *)

Lemma operation_result_ok (st : Z) (body : value) :
  (200 <= st < 300)%Z -> operation_result (Reply st body) = ret body.
Proof.
  intros Hst. unfold operation_result, settle.
  assert (Hrange : ((200 <=? st) && (st <? 300))%Z = true).
  { apply andb_true_iff. rewrite Z.leb_le, Z.ltb_lt. lia. }
  now rewrite Hrange.
Qed.

(** C2, as the code has it: a configured [farms list --json] writes the
    decoded body as it came, envelope included, as JSON at two spaces to
    the level; for the body of the example that is the object with its
    [results] key, not the bare array. *)
Theorem farms_list_json (w : world) (limit : option jsstring) (st : Z) (body : value) :
  apiKey (w_config w) <> [] ->
  (forall r, w_net w r = Reply st body) -> (200 <= st < 300)%Z ->
  action w (FarmsList {| opt_limit := limit; opt_json := true |})
  = ([ConfigGet KApiKey; SpinnerStart (lit "Fetching farms..."); ConfigGet KApiKey;
      Request (list_request w (lit "/v4/farms")
                 (VNum (parseInt (default (lit "50") limit))));
      SpinnerStop; Stdout (shown (JSON_stringify2 body))],
     Returned tt)
  /\ JSON_stringify2 farms_envelope = VStr farms_envelope_text.
Proof.
  intros Hkey Hnet Hst. split; [|reflexivity].
  unfold action, listFarms. rewrite list_action_run by assumption.
  rewrite Hnet, operation_result_ok by assumption. reflexivity.
Qed.

(** ** Commands as a whole *)

(** *** Computations that only print *)

Lemma prints_ret {A} (a : A) : prints (ret a).
Proof. split; [constructor | discriminate]. Qed.

Lemma prints_throw {A} (e : error) : prints (@throw _ A e).
Proof. split; [constructor | discriminate]. Qed.

Lemma prints_console_log (text : jsstring) : prints (console_log text).
Proof. split; [repeat constructor | discriminate]. Qed.

Lemma prints_console_error (text : jsstring) : prints (console_error text).
Proof. split; [repeat constructor | discriminate]. Qed.

Lemma prints_bind {A B} (m : Out A) (k : A -> Out B) :
  prints m -> (forall a, prints (k a)) -> prints (x <- m ;; k x).
Proof.
  intros [Hm Hexit] Hk. destruct m as [t [a|e|code]]; simpl in *.
  - destruct (Hk a) as [Hka Hkexit]. unfold bind. destruct (k a) as [t' r]. simpl in *.
    split; [now apply Forall_app | exact Hkexit].
  - split; [exact Hm | discriminate].
  - now destruct (Hexit code).
Qed.

Lemma prints_try_catch {A} (m : Out A) (handler : error -> Out A) :
  prints m -> (forall e, prints (handler e)) -> prints (try_catch m handler).
Proof.
  intros [Hm Hexit] Hh. destruct m as [t [a|e|code]]; simpl in *.
  - split; [exact Hm | discriminate].
  - destruct (Hh e) as [Hhe Hhexit]. destruct (handler e) as [t' r]. simpl in *.
    split; [now apply Forall_app | exact Hhexit].
  - now destruct (Hexit code).
Qed.

Lemma prints_fold_each {S A} (f : S -> A -> Out S) (l : list A) :
  (forall s x, prints (f s x)) -> forall s, prints (fold_each f s l).
Proof.
  intros Hf. induction l as [|x l IH]; intros s; simpl; [apply prints_ret|].
  apply prints_bind; [apply Hf | apply IH].
Qed.

Lemma prints_for_each {A} (f : A -> Out unit) (l : list A) :
  (forall x, prints (f x)) -> prints (for_each f l).
Proof.
  intros Hf. induction l as [|x l IH]; simpl; [apply prints_ret|].
  apply prints_bind; [apply Hf | intros _; apply IH].
Qed.

Lemma prints_map_each {A B} (f : A -> Out B) (l : list A) :
  (forall x, prints (f x)) -> prints (map_each f l).
Proof.
  intros Hf. induction l as [|x l IH]; simpl; [apply prints_ret|].
  apply prints_bind; [apply Hf | intros y].
  apply prints_bind; [apply IH | intros; apply prints_ret].
Qed.

Lemma prints_lift {A} (r : error + A) : prints (lift r).
Proof. destruct r; [apply prints_throw | apply prints_ret]. Qed.

Lemma prints_property (v : value) (k : jsstring) : prints (property v k).
Proof. unfold property. destruct (property_fault v k); [apply prints_throw | apply prints_ret]. Qed.

Ltac prints_step :=
  first
    [ apply prints_ret
    | apply prints_throw
    | apply prints_console_log
    | apply prints_console_error
    | apply prints_lift
    | apply prints_property
    | apply prints_bind
    | apply prints_try_catch
    | apply prints_fold_each
    | apply prints_for_each
    | apply prints_map_each
    | progress intros
    | match goal with
      | |- prints (if ?b then _ else _) => destruct b
      | |- prints (match ?x with _ => _ end) => destruct x
      end ].

Ltac prints_all := repeat prints_step.

Lemma prints_printTable (data : value) (columns : list column) :
  prints (printTable data columns).
Proof.
  unfold printTable, measure_column, print_row, data_rows, cell_text.
  prints_all.
Qed.

Lemma prints_printJson (data : value) : prints (printJson data).
Proof. apply prints_console_log. Qed.

Lemma prints_extract_records (data : value) : prints (extract_records data).
Proof. unfold extract_records. prints_all. Qed.

Lemma prints_quiet {A} (m : Out A) : prints m -> quiet m.
Proof.
  intros [Hm _]. unfold quiet, requests. induction Hm as [|ev t Hev _ IH]; [reflexivity|].
  simpl. destruct ev; simpl in *; try contradiction; exact IH.
Qed.

(** *** The shape of an action *)

(** Every action is the guard, then the operation under the spinner, then
    the body as JSON or a rendering that only prints; one handler around
    it all. *)
Lemma action_shape (c : command) :
  exists render : value -> Out unit,
    (forall data, prints (render data))
    /\ forall w,
         action w c
         = (requireAuth w ;;
            try_catch
              (data <- withSpinner (command_text c) (call w (command_call c)) ;;
               if command_json c then printJson data else render data)
              fail_with).
Proof.
  destruct c; simpl;
    unfold list_action, fields_get, fields_create, farms_get, boundaries_get, activity_get;
    refine (ex_intro _ _ (conj _ (fun w => eq_refl))).
  all: intros data; unfold console_log2, acres_text; prints_all;
    try apply prints_printTable; try apply prints_extract_records.
Qed.

Lemma operation_result_outcome (reply : net_reply) :
  operation_result reply = ([], reply_outcome reply).
Proof.
  rewrite operation_result_failure. unfold reply_outcome.
  destruct reply as [st body|msg|msg]; [|reflexivity..].
  now destruct ((200 <=? st) && (st <? 300))%Z.
Qed.

(** An operation throws before it asks anything, or asks once and ends as
    the reply says. *)
Lemma call_run (w : world) (op : operation) :
  (exists e, call w op = throw e)
  \/ exists m url params body,
       call w op
       = ([ConfigGet KApiKey; Request (api_request w m url params body)],
          reply_outcome (w_net w (api_request w m url params body))).
Proof.
  destruct op; simpl;
    unfold listFields, listFarms, listBoundaries, listHarvestActivities,
      listPlantingActivities, getField, getFarm, getBoundary, getHarvestActivity,
      getPlantingActivity.
  all: try (right; rewrite get_operation_run, operation_result_outcome;
            do 4 eexists; reflexivity).
  all: try (destruct (limit_parameter_cases arg) as [[limit Hl]|[e He]];
    [ right; rewrite (list_operation_run _ _ _ _ Hl), operation_result_outcome;
      do 4 eexists; reflexivity
    | left; exists e; unfold list_operation; now rewrite He ]).
  assert (Hnull : arg = VNull \/ arg <> VNull) by (destruct arg; auto; right; discriminate).
  destruct Hnull as [->|Hnn]; [left; eexists; reflexivity|].
  right. destruct (createField_run w arg Hnn) as [body ->].
  rewrite operation_result_outcome. do 4 eexists; reflexivity.
Qed.

Lemma reply_outcome_settles (reply : net_reply) (code : Z) :
  reply_outcome reply <> Exited code.
Proof.
  destruct reply as [st body|msg|msg]; simpl; try discriminate.
  destruct ((200 <=? st) && (st <? 300))%Z; discriminate.
Qed.

Lemma call_settles (w : world) (op : operation) (code : Z) :
  snd (call w op) <> Exited code.
Proof.
  destruct (call_run w op) as [[e ->]|(m & url & params & body & ->)];
    [discriminate | apply reply_outcome_settles].
Qed.

(** The command of a rendering [render], once the guard has passed. *)
Lemma guarded_run (w : world) (text : jsstring) (operation : Out value) (json : bool)
    (render : value -> Out unit) :
  apiKey (w_config w) <> [] -> (forall code, snd operation <> Exited code) ->
  (requireAuth w ;;
   try_catch
     (data <- withSpinner text operation ;;
      if json then printJson data else render data)
     fail_with)
  = after (ConfigGet KApiKey :: SpinnerStart text :: fst operation ++ [SpinnerStop])
      match snd operation with
      | Returned data =>
          try_catch (if json then printJson data else render data) fail_with
      | Thrown e => fail_with e
      | Exited code => process_exit code
      end.
Proof.
  intros Hkey Hsettles.
  rewrite (requireAuth_configured w Hkey), bind_returned.
  destruct operation as [t o]. rewrite withSpinner_run, try_bind_outcome.
  simpl in *. destruct o as [data|e|code]; [| |now destruct (Hsettles code)];
    unfold after; simpl; reflexivity.
Qed.

Lemma fail_with_run (e : error) :
  fail_with e = ([Stderr (chalk Red ballot_x ++ lit " " ++ err_message e)], Exited 1%Z).
Proof. reflexivity. Qed.

Lemma handled_prints (m : Out unit) :
  prints m ->
  Forall is_output (fst (try_catch m fail_with))
  /\ (snd (try_catch m fail_with) = Returned tt \/ snd (try_catch m fail_with) = Exited 1%Z).
Proof.
  intros [Hm Hexit]. destruct m as [t [[]|e|code]]; simpl in *.
  - split; [exact Hm | now left].
  - split; [|now right]. apply Forall_app. split; [exact Hm | repeat constructor].
  - now destruct (Hexit code).
Qed.

(** What is left of a command once the operation has settled. *)
Lemma settled_prints (json : bool) (render : value -> Out unit) (o : outcome value) :
  (forall data, prints (render data)) -> (forall code, o <> Exited code) ->
  let rest := match o with
              | Returned data =>
                  try_catch (if json then printJson data else render data) fail_with
              | Thrown e => fail_with e
              | Exited code => process_exit code
              end in
  Forall is_output (fst rest) /\ (snd rest = Returned tt \/ snd rest = Exited 1%Z).
Proof.
  intros Hrender Hsettles. destruct o as [data|e|code]; simpl.
  - apply handled_prints. destruct json; [apply prints_printJson | apply Hrender].
  - split; [repeat constructor | now right].
  - now destruct (Hsettles code).
Qed.

(** X1: an action never lets an exception escape and never ends the
    process with a status other than 1: it returns, or it exits with 1. *)
Theorem action_returns_or_exits_1 (w : world) (c : command) :
  snd (action w c) = Returned tt \/ snd (action w c) = Exited 1%Z.
Proof.
  destruct (action_shape c) as (render & Hrender & ->).
  destruct (apiKey (w_config w)) as [|u key] eqn:Hkey.
  - right. now rewrite guarded_not_configured.
  - rewrite guarded_run by (rewrite ?Hkey; try discriminate; apply call_settles).
    unfold after. simpl snd.
    apply (settled_prints _ _ _ Hrender (call_settles w (command_call c))).
Qed.

Lemma action_events (w : world) (c : command) :
  apiKey (w_config w) <> [] ->
  exists outputs,
    fst (action w c)
    = ConfigGet KApiKey :: SpinnerStart (command_text c)
        :: fst (call w (command_call c)) ++ SpinnerStop :: outputs
    /\ Forall is_output outputs.
Proof.
  intros Hkey. destruct (action_shape c) as (render & Hrender & ->).
  rewrite guarded_run by (try assumption; apply call_settles).
  destruct (settled_prints (command_json c) render (snd (call w (command_call c))) Hrender
              (call_settles w (command_call c))) as [Hout _].
  eexists. split; [|exact Hout].
  unfold after. simpl fst. now rewrite <- app_assoc.
Qed.

(** X2: a configured action reads the key, starts the spinner, lets its
    operation run, stops the spinner, and from then on only writes to the
    terminal. *)
Theorem action_trace (w : world) (c : command) :
  apiKey (w_config w) <> [] ->
  exists outputs,
    fst (action w c)
    = ConfigGet KApiKey :: SpinnerStart (command_text c)
        :: fst (call w (command_call c)) ++ SpinnerStop :: outputs
    /\ Forall is_output outputs.
Proof. apply action_events. Qed.

(** X3: when the operation of a configured action throws, whatever the
    error, the action writes the marker and the message of the error to
    standard error, nothing to standard output, and exits with 1. *)
Theorem action_failure (w : world) (c : command) (e : error) :
  apiKey (w_config w) <> [] -> snd (call w (command_call c)) = Thrown e ->
  action w c
  = (ConfigGet KApiKey :: SpinnerStart (command_text c)
       :: fst (call w (command_call c))
       ++ [SpinnerStop; Stderr (chalk Red ballot_x ++ lit " " ++ err_message e)],
     Exited 1%Z).
Proof.
  intros Hkey Hthrown. destruct (action_shape c) as (render & Hrender & ->).
  rewrite guarded_run by (try assumption; apply call_settles).
  rewrite Hthrown, fail_with_run. unfold after. simpl. now rewrite <- app_assoc.
Qed.

(** X4: with [--json], when the operation of a configured action returns
    a body, the action writes that body as JSON at two spaces to the level,
    nothing else, and returns. *)
Theorem action_json (w : world) (c : command) (body : value) :
  apiKey (w_config w) <> [] -> command_json c = true ->
  snd (call w (command_call c)) = Returned body ->
  action w c
  = (ConfigGet KApiKey :: SpinnerStart (command_text c)
       :: fst (call w (command_call c))
       ++ [SpinnerStop; Stdout (shown (JSON_stringify2 body))],
     Returned tt).
Proof.
  intros Hkey Hjson Hbody. destruct (action_shape c) as (render & Hrender & ->).
  rewrite guarded_run by (try assumption; apply call_settles).
  rewrite Hbody, Hjson. unfold after. simpl. now rewrite <- app_assoc.
Qed.

Lemma outputs_no_requests (t : list event) :
  Forall is_output t ->
  omap (fun ev => match ev with Request r => Some r | _ => None end) t = [].
Proof.
  induction 1 as [|ev t Hev _ IH]; [reflexivity|].
  simpl. destruct ev; simpl in *; try contradiction; exact IH.
Qed.

(** The operation of a command always gets to its request. *)
Lemma command_call_run (w : world) (c : command) :
  exists m url params body,
    call w (command_call c)
    = ([ConfigGet KApiKey; Request (api_request w m url params body)],
       reply_outcome (w_net w (api_request w m url params body))).
Proof.
  destruct (call_run w (command_call c)) as [[e He]|Hrun]; [|exact Hrun].
  destruct c; simpl in He;
    unfold listFields, listFarms, listBoundaries, listHarvestActivities,
      listPlantingActivities, getField, getFarm, getBoundary, getHarvestActivity,
      getPlantingActivity in He;
    try (rewrite get_operation_run in He; discriminate);
    try (unfold limit_argument in He;
         rewrite (list_operation_run _ _ _ (VNum (parseInt (options_limit options)))) in He
           by (now apply limit_given);
         discriminate).
  destruct (createField_run w
    (VObj [(lit "name", VStr name); (lit "acres", acres_argument acres)])) as [body Hbody];
    [discriminate|].
  rewrite Hbody in He. discriminate.
Qed.

Lemma action_one_request (w : world) (c : command) :
  apiKey (w_config w) <> [] ->
  exists r,
    requests (action w c) = [r]
    /\ requests (call w (command_call c)) = [r]
    /\ req_baseURL r = lit "https://platform.climate.com"
    /\ In (lit "Authorization", lit "Bearer " ++ apiKey (w_config w)) (req_headers r).
Proof.
  intros Hkey.
  destruct (action_events w c Hkey) as (outputs & Htrace & Hout).
  destruct (command_call_run w c) as (m & url & params & body & Hcall).
  exists (api_request w m url params body).
  assert (Hevents : fst (action w c)
                    = [ConfigGet KApiKey; SpinnerStart (command_text c); ConfigGet KApiKey;
                       Request (api_request w m url params body); SpinnerStop] ++ outputs)
    by (rewrite Htrace, Hcall; reflexivity).
  unfold requests. rewrite Hevents, Hcall, omap_app, (outputs_no_requests outputs Hout).
  repeat split; try reflexivity. now left.
Qed.

(** X5: a configured action issues exactly one request, the one of its
    operation, to the fixed base address and with the stored key as bearer
    token. *)
Theorem action_requests (w : world) (c : command) :
  apiKey (w_config w) <> [] ->
  exists r,
    requests (action w c) = [r]
    /\ requests (call w (command_call c)) = [r]
    /\ req_baseURL r = lit "https://platform.climate.com"
    /\ In (lit "Authorization", lit "Bearer " ++ apiKey (w_config w)) (req_headers r).
Proof. apply action_one_request. Qed.



Lemma outputs_no_config (t : list event) (k : config_key) :
  Forall is_output t -> ~ In (ConfigGet k) t.
Proof.
  intros Hout Hin. rewrite Forall_forall in Hout.
  apply (Hout (ConfigGet k)). now apply list_elem_of_In.
Qed.

(** X7: of the store an action reads the API key and nothing else: every
    read is of [apiKey], and two stores with the same key, whatever their
    OAuth settings, token, expiry and base address, give the same run. *)
Theorem action_reads_only_the_key (w : world) (c : command) :
  (forall k, In (ConfigGet k) (fst (action w c)) -> k = KApiKey)
  /\ forall cfg : config,
       apiKey cfg = apiKey (w_config w) ->
       action {| w_config := cfg; w_net := w_net w; w_now := w_now w |} c = action w c.
Proof.
  split.
  - intros k Hin.
    destruct (apiKey (w_config w)) as [|u key] eqn:Hkey.
    + destruct (action_shape c) as (render & _ & Hshape).
      rewrite Hshape, guarded_not_configured in Hin by assumption. simpl in Hin.
      destruct Hin as [Heq|[Heq|[Heq|[Heq|[]]]]]; now inversion Heq.
    + assert (Hconf : apiKey (w_config w) <> []) by (rewrite Hkey; discriminate).
      destruct (action_events w c Hconf) as (outputs & Htrace & Hout).
      destruct (command_call_run w c) as (m & url & params & body & Hcall).
      rewrite Htrace, Hcall in Hin. simpl in Hin.
      destruct Hin as [Heq|[Heq|[Heq|[Heq|[Heq|Hin]]]]]; try (now inversion Heq).
      now destruct (outputs_no_config outputs k Hout).
  - intros cfg Hcfg. destruct w as [[k0 a0 b0 c0 d0 e0] net now].
    destruct cfg as [k1 a1 b1 c1 d1 e1]. simpl in Hcfg. subst k1.
    destruct c; reflexivity.
Qed.


(** *** The body of [createField] *)

(** X8: [createField] on an object posts to [/v4/fields] an object that
    has the name as given, has [acres] and [boundary] exactly when they
    are truthy (an area of 0 is left out), and has no other key. *)
Theorem createField_body (w : world) (fields : list (jsstring * value)) :
  exists body,
    requests (createField w (VObj fields))
    = [api_request w POST (lit "/v4/fields") None (Some (VObj body))]
    /\ lookup_field (lit "name") body = Some (own_property (VObj fields) (lit "name"))
    /\ lookup_field (lit "acres") body
       = (if truthy (own_property (VObj fields) (lit "acres"))
          then Some (own_property (VObj fields) (lit "acres")) else None)
    /\ lookup_field (lit "boundary") body
       = (if truthy (own_property (VObj fields) (lit "boundary"))
          then Some (own_property (VObj fields) (lit "boundary")) else None)
    /\ forall k, k <> lit "name" -> k <> lit "acres" -> k <> lit "boundary" ->
         lookup_field k body = None.
Proof.
  eexists. split.
  - unfold createField. rewrite bind_ret, getClient_run, bind_returned.
    unfold client_post. rewrite call_and_map. reflexivity.
  - destruct (truthy (own_property (VObj fields) (lit "acres")));
      destruct (truthy (own_property (VObj fields) (lit "boundary")));
      repeat split; try reflexivity;
      intros k Hname Hacres Hboundary; simpl;
      repeat (rewrite decide_False by congruence); reflexivity.
Qed.

(** ** The store and the [config] commands *)

(** What [setConfig] writes [getConfig] reads back, every other key reads
    as before, and [clearConfig] brings every key back to its default;
    neither touches the network or the clock. *)
Lemma setConfig_getConfig (w : world) (s : setting) :
  getConfig (setConfig w s) (setting_key s)
  = ([ConfigGet (setting_key s)], Returned (setting_value s))
  /\ (forall k, k <> setting_key s -> getConfig (setConfig w s) k = getConfig w k)
  /\ (forall k, getConfig (clearConfig (setConfig w s)) k
               = ([ConfigGet k], Returned (config_get default_config k)))
  /\ w_net (setConfig w s) = w_net w /\ w_now (setConfig w s) = w_now w
  /\ w_net (clearConfig w) = w_net w /\ w_now (clearConfig w) = w_now w.
Proof.
  split; [destruct s; reflexivity|]. split.
  - intros k Hk. destruct s, k; try reflexivity; now destruct Hk.
  - split; [intros k; reflexivity | repeat split].
Qed.

Lemma isConfigured_run (w : world) :
  isConfigured w
  = ([ConfigGet KApiKey], Returned (negb (bool_decide (apiKey (w_config w) = [])))).
Proof.
  unfold isConfigured, getConfig. simpl. now rewrite negb_involutive.
Qed.

(** X9: [config set --api-key k] with a key that is not empty stores the
    key, reports success and returns; from then on the store counts as
    configured and every action sends [Bearer k].  Without the option, or
    with the empty key, the command leaves the store as it was, writes the
    hint to standard error, and returns all the same: it does not end the
    process with status 1. *)
Theorem config_set_action_run (w : world) (api_key : option jsstring) :
  (forall k, api_key = Some k -> k <> [] ->
     config_set_action w api_key
     = (setConfig w (SetApiKey k),
        ([Stdout (chalk Green check_mark ++ lit " " ++ lit "API key set")], Returned tt))
     /\ isConfigured (fst (config_set_action w api_key))
        = ([ConfigGet KApiKey], Returned true)
     /\ forall c, exists r,
          requests (action (fst (config_set_action w api_key)) c) = [r]
          /\ In (lit "Authorization", lit "Bearer " ++ k) (req_headers r))
  /\ (api_key = None \/ api_key = Some [] ->
      config_set_action w api_key
      = (w, ([Stderr (chalk Red ballot_x ++ lit " "
                        ++ lit "No options provided. Use --api-key")],
             Returned tt))).
Proof.
  split.
  - intros k -> Hk.
    assert (Hrun : config_set_action w (Some k)
                   = (setConfig w (SetApiKey k),
                      ([Stdout (chalk Green check_mark ++ lit " " ++ lit "API key set")],
                       Returned tt))).
    { unfold config_set_action. simpl. now rewrite bool_decide_eq_false_2. }
    rewrite Hrun. split; [reflexivity|]. simpl fst. split.
    + rewrite isConfigured_run. simpl. now rewrite bool_decide_eq_false_2.
    + intros c.
      destruct (action_one_request (setConfig w (SetApiKey k)) c Hk) as (r & Hr & _ & _ & Hauth).
      exists r. split; [exact Hr | exact Hauth].
  - intros [->| ->]; reflexivity.
Qed.

(** X10: [config show] never writes more of the key than its last four
    units: after eight stars it shows the key from the fourth unit from the
    end (the whole key when it has four units or fewer), so two keys with
    the same end give the same output; without a key it writes [not set]. *)
Theorem config_show_masks (w : world) :
  (apiKey (w_config w) = [] ->
     stdout (config_show_action w)
     = [chalk Bold ([10%N] ++ lit "Climate FieldView CLI Configuration" ++ [10%N]);
        lit "API Key: " ++ lit " " ++ chalk Red (lit "not set");
        []])
  /\ (apiKey (w_config w) <> [] ->
      stdout (config_show_action w)
      = [chalk Bold ([10%N] ++ lit "Climate FieldView CLI Configuration" ++ [10%N]);
         lit "API Key: " ++ lit " "
           ++ chalk Green (replicate 8 42%N
                           ++ drop (length (apiKey (w_config w)) - 4) (apiKey (w_config w)));
         []]
      /\ length (drop (length (apiKey (w_config w)) - 4) (apiKey (w_config w))) <= 4
      /\ forall w' : world,
           apiKey (w_config w') <> [] ->
           drop (length (apiKey (w_config w')) - 4) (apiKey (w_config w'))
           = drop (length (apiKey (w_config w)) - 4) (apiKey (w_config w)) ->
           config_show_action w' = config_show_action w).
Proof.
  split.
  - intros Hkey. unfold config_show_action, getConfig. simpl. now rewrite Hkey.
  - intros Hkey.
    assert (Hrun : forall v : world, apiKey (w_config v) <> [] ->
              config_show_action v
              = ([ConfigGet KApiKey;
                  Stdout (chalk Bold ([10%N] ++ lit "Climate FieldView CLI Configuration"
                                      ++ [10%N]));
                  Stdout (lit "API Key: " ++ lit " "
                          ++ chalk Green (replicate 8 42%N
                                ++ drop (length (apiKey (w_config v)) - 4)
                                     (apiKey (w_config v))));
                  Stdout []], Returned tt)).
    { intros v Hv. unfold config_show_action, getConfig, slice_last4. simpl.
      now rewrite bool_decide_eq_false_2. }
    split; [now rewrite (Hrun w Hkey)|]. split.
    + rewrite length_drop. lia.
    + intros w' Hkey' Hend. now rewrite (Hrun w' Hkey'), (Hrun w Hkey), Hend.
Qed.

(** ** More on the table renderer *)





Lemma cell_text_cases (col : column) (row : value) :
  (exists text, cell_text col row = ret text) \/ (exists e, cell_text col row = throw e).
Proof.
  unfold cell_text, property.
  destruct (property_fault row (key col)); [right; eexists; reflexivity|].
  rewrite bind_ret. destruct (format col) as [f|]; [|left; eexists; reflexivity].
  destruct (f (own_property row (key col)) row); simpl;
    [right | left]; eexists; reflexivity.
Qed.

(** The rows of one column: all can be formatted, or the first pass over
    them throws, whatever the widths so far. *)
Lemma column_cases (col : column) (rows : list value) :
  (forall row, In row rows -> exists text, cell_text col row = ret text)
  \/ exists e, forall widths : gmap (list N) nat,
       fold_each (fun (widths : gmap (list N) nat) row =>
                    val <- cell_text col row ;;
                    ret (match widths !! key col with
                         | Some w => if w <? length val then <[key col := length val]> widths
                                     else widths
                         | None => widths
                         end)) widths rows
       = throw e.
Proof.
  induction rows as [|row rows IH]; [left; intros row []|].
  destruct (cell_text_cases col row) as [[text Htext]|[e He]].
  - destruct IH as [Hall|[e He]].
    + left. intros r [<-|Hr]; [eexists; eassumption | now apply Hall].
    + right. exists e. intros widths. simpl. rewrite Htext, !bind_ret. apply He.
  - right. exists e. intros widths. simpl. now rewrite He.
Qed.

Lemma fold_each_cons {S A} (f : S -> A -> Out S) (s : S) (x : A) (l : list A) :
  fold_each f s (x :: l) = (s' <- f s x ;; fold_each f s' l).
Proof. reflexivity. Qed.

Lemma first_pass_cases (rows : list value) (columns : list column) :
  cells_ok rows columns
  \/ exists e, forall widths : gmap (list N) nat,
       fold_each (fun widths col =>
                    rows <- data_rows (VArr rows) ;; measure_column rows widths col)
                 widths columns
       = throw e.
Proof.
  induction columns as [|col columns IH]; [left; intros row col _ []|].
  destruct (column_cases col rows) as [Hcol|[e He]].
  - destruct IH as [Hall|[e He]].
    + left. intros row c Hrow [<-|Hc]; [now apply Hcol | now apply Hall].
    + right. exists e. intros widths. rewrite fold_each_cons. unfold data_rows at 1.
      rewrite bind_ret, (measure_column_ok rows widths col Hcol), bind_ret. apply He.
  - right. exists e. intros widths. rewrite fold_each_cons. unfold data_rows at 1.
    rewrite bind_ret. unfold measure_column. now rewrite He.
Qed.

Lemma stdout_of_lines {A} (g : A -> jsstring) (l : list A) :
  omap (fun ev => match ev with Stdout text => Some text | _ => None end)
       (map (fun x => Stdout (g x)) l)
  = map g l.
Proof. induction l as [|x l IH]; [reflexivity | simpl; f_equal; exact IH]. Qed.

Lemma table_events_length (widths : gmap (list N) nat) (rows : list value)
    (columns : list column) :
  length (omap (fun ev => match ev with Stdout text => Some text | _ => None end)
            (table_events widths rows columns))
  = 3 + length rows.
Proof.
  unfold table_events.
  rewrite !omap_app, (stdout_of_lines (row_text widths columns)), !length_app, length_map.
  simpl. lia.
Qed.

Lemma printTable_cases (rows : list value) (columns : list column) :
  rows <> [] ->
  (cells_ok rows columns
   /\ snd (printTable (VArr rows) columns) = Returned tt
   /\ length (stdout (printTable (VArr rows) columns)) = 3 + length rows)
  \/ (~ cells_ok rows columns
      /\ exists e, printTable (VArr rows) columns = ([], Thrown e)).
Proof.
  intros Hrows. destruct (first_pass_cases rows columns) as [Hok|[e He]].
  - left. split; [exact Hok|]. rewrite (printTable_run rows columns Hrows Hok).
    split; [reflexivity|]. unfold stdout. apply table_events_length.
  - right.
    assert (Hrun : printTable (VArr rows) columns = ([], Thrown e)).
    { unfold printTable.
      assert (Hsome : negb (truthy (VArr rows)) || length_is_zero (VArr rows) = false)
        by (simpl; now apply bool_decide_eq_false_2).
      now rewrite Hsome, He. }
    split; [|now exists e].
    intros Hok. rewrite (printTable_run rows columns Hrows Hok) in Hrun. discriminate.
Qed.

(** X12: the renderer writes a whole table or nothing.  On rows it either
    writes the header, the rule, one line per row and the count and
    returns, or it throws before it has written anything: a cell that
    cannot be formatted is found in the first pass. *)
Theorem table_whole_or_nothing (rows : list value) (columns : list column) :
  rows <> [] ->
  (cells_ok rows columns
   /\ snd (printTable (VArr rows) columns) = Returned tt
   /\ length (stdout (printTable (VArr rows) columns)) = 3 + length rows)
  \/ (~ cells_ok rows columns
      /\ exists e, printTable (VArr rows) columns = ([], Thrown e)).
Proof. apply printTable_cases. Qed.

(** X13: data that is truthy and no array, such as a string or a number
    found under [results], makes the renderer throw the [TypeError] of a
    missing [forEach]; with columns to measure, before anything is
    written. *)
Theorem table_of_no_array (data : value) (columns : list column) :
  truthy data = true -> length_is_zero data = false ->
  (forall items, data <> VArr items) -> columns <> [] ->
  printTable data columns = throw (TypeError (NotAFunction (lit "data.forEach"))).
Proof.
  intros Htruthy Hlength Harray Hcolumns. unfold printTable.
  rewrite Htruthy, Hlength. simpl orb. cbv iota.
  destruct columns as [|col columns]; [congruence|]. simpl fold_each.
  destruct data; try reflexivity. now destruct (Harray items).
Qed.

(** *** The tables of the program *)










(** *** [list] in text mode *)

Lemma list_action_shape (c : command) (columns : list column) :
  as_list_columns c = Some columns ->
  forall w,
    action w c
    = (requireAuth w ;;
       try_catch
         (data <- withSpinner (command_text c) (call w (command_call c)) ;;
          if command_json c then printJson data
          else records <- extract_records data ;; printTable records columns)
         fail_with).
Proof. destruct c; simpl; intros Hc w; inversion Hc; subst; reflexivity. Qed.

(** X15: a configured [list] command without [--json], once its operation
    has returned a body from which a sequence is extracted, writes the
    notice when the sequence is empty and the whole table of the records
    when their cells can be formatted; when they cannot, it writes no
    table at all, only the message of the error, and exits with 1. *)
Theorem list_text_output (w : world) (c : command) (columns : list column)
    (body : value) (rows : list value) :
  apiKey (w_config w) <> [] -> as_list_columns c = Some columns -> command_json c = false ->
  snd (call w (command_call c)) = Returned body ->
  extract_records body = ret (VArr rows) ->
  let before := ConfigGet KApiKey :: SpinnerStart (command_text c)
                  :: fst (call w (command_call c)) ++ [SpinnerStop] in
  (rows = [] ->
     action w c = (before ++ [Stdout (chalk Yellow (lit "No results found."))], Returned tt))
  /\ (rows <> [] -> cells_ok rows columns ->
      action w c = (before ++ table_events (measured rows columns) rows columns, Returned tt))
  /\ (rows <> [] -> ~ cells_ok rows columns ->
      exists e,
        action w c
        = (before ++ [Stderr (chalk Red ballot_x ++ lit " " ++ err_message e)],
           Exited 1%Z)).
Proof.
  intros Hkey Hc Hjson Hbody Hrows before.
  assert (Hrun : action w c = after before (try_catch (printTable (VArr rows) columns) fail_with)).
  { rewrite (list_action_shape c columns Hc).
    rewrite guarded_run by (try assumption; apply call_settles).
    now rewrite Hbody, Hjson, Hrows, bind_ret. }
  rewrite Hrun. split; [|split].
  - intros ->. now rewrite printTable_empty by now right.
  - intros Hne Hok. now rewrite (printTable_run rows columns Hne Hok).
  - intros Hne Hbad.
    destruct (printTable_cases rows columns Hne) as [[Hok _]|[_ [e He]]];
      [contradiction|].
    exists e. now rewrite He.
Qed.

(** *** [fields create] in text mode *)

(** X16: a configured [fields create] without [--json] reports success as
    soon as the operation has returned, before it looks at the body: on a
    body that is not [null] it then writes the id of the body, or [N/A]
    when there is none, and returns; on [null] it has already written the
    success line when reading the id fails, and exits with 1. *)
Theorem fields_create_text (w : world) (name : jsstring) (acres : option jsstring)
    (body : value) :
  apiKey (w_config w) <> [] ->
  snd (call w (command_call (FieldsCreate name acres false))) = Returned body ->
  let before := ConfigGet KApiKey :: SpinnerStart (lit "Creating field...")
                  :: fst (call w (command_call (FieldsCreate name acres false)))
                  ++ [SpinnerStop;
                      Stdout (chalk Green check_mark ++ lit " " ++ lit "Field created: "
                              ++ chalk Bold name)] in
  (nullish body = false ->
     action w (FieldsCreate name acres false)
     = (before ++ [Stdout (lit "Field ID: " ++ lit " "
                           ++ shown (js_or (own_property body (lit "id")) NA))],
        Returned tt))
  /\ (nullish body = true ->
      exists f,
        action w (FieldsCreate name acres false)
        = (before ++ [Stderr (chalk Red ballot_x ++ lit " " ++ fault_message f)],
           Exited 1%Z)).
Proof.
  intros Hkey Hbody before.
  assert (Hrun : action w (FieldsCreate name acres false)
    = after (ConfigGet KApiKey :: SpinnerStart (lit "Creating field...")
               :: fst (call w (command_call (FieldsCreate name acres false)))
               ++ [SpinnerStop])
        (try_catch
           (printSuccess (lit "Field created: " ++ chalk Bold name) ;;
            id <- property body (lit "id") ;;
            console_log2 (lit "Field ID: ") (js_or id NA))
           fail_with)).
  { unfold action, fields_create.
    rewrite (guarded_run w (lit "Creating field...")
               (call w (command_call (FieldsCreate name acres false))) false
               (fun field => printSuccess (lit "Field created: " ++ chalk Bold name) ;;
                             id <- property field (lit "id") ;;
                             console_log2 (lit "Field ID: ") (js_or id NA)))
      by (try assumption; apply call_settles).
    now rewrite Hbody. }
  rewrite Hrun. unfold before. split.
  - intros Hnull. rewrite property_defined by assumption.
    unfold after. simpl. rewrite <- !app_assoc. reflexivity.
  - intros Hnull.
    destruct body; try discriminate; eexists; unfold after; simpl;
      rewrite <- !app_assoc; reflexivity.
Qed.

(** *** [get] in text mode *)



(** ** More on the store, the spinner and the extraction *)

Lemma hasValidToken_run (w : world) :
  hasValidToken w
  = ([ConfigGet KAccessToken; ConfigGet KTokenExpiry],
     Returned (negb (bool_decide (accessToken (w_config w) = []))
               && (w_now w + 60000 <? tokenExpiry (w_config w))%Z)).
Proof.
  unfold hasValidToken, getConfig. simpl.
  destruct (accessToken (w_config w)); reflexivity.
Qed.

(** X18: as time passes a token can only go from valid to not valid: if
    the token of a store counts as valid at some time, it counts as valid
    at every earlier time; and it depends on the token and its expiry
    alone, not on the key, the OAuth client or the base address. *)
Theorem hasValidToken_over_time (w : world) (earlier : Z) :
  (earlier <= w_now w)%Z ->
  snd (hasValidToken w) = Returned true ->
  forall cfg : config,
    accessToken cfg = accessToken (w_config w) ->
    tokenExpiry cfg = tokenExpiry (w_config w) ->
    snd (hasValidToken {| w_config := cfg; w_net := w_net w; w_now := earlier |})
    = Returned true.
Proof.
  intros Hearlier Hvalid cfg Htoken Hexpiry.
  rewrite hasValidToken_run in *. simpl in *. rewrite Htoken, Hexpiry.
  assert (Hb : negb (bool_decide (accessToken (w_config w) = []))
               && (w_now w + 60000 <? tokenExpiry (w_config w))%Z = true) by congruence.
  apply andb_prop in Hb as [Hnonempty Hlt].
  rewrite Hnonempty. simpl. f_equal. apply Z.ltb_lt in Hlt. apply Z.ltb_lt. lia.
Qed.

(** X19: [withSpinner] starts the spinner, runs the function and stops
    the spinner once, whether the function returns or throws; the result
    or the error passes through unchanged. *)
Theorem withSpinner_brackets {A} (text : jsstring) (fn : Out A) :
  (forall code, snd fn <> Exited code) ->
  withSpinner text fn = (SpinnerStart text :: fst fn ++ [SpinnerStop], snd fn).
Proof.
  intros Hsettles. destruct fn as [t o]. rewrite withSpinner_run. simpl in *.
  destruct o; try reflexivity. now destruct (Hsettles code).
Qed.

(** X20: the extraction at its edges.  On [null] and [undefined] it throws
    the [TypeError] of reading [results]; a [results] that is there and
    falsy ([null], 0, the empty string, false) counts as missing; and a
    truthy [results] is returned as it is, sequence or not. *)
Theorem extract_records_edges :
  extract_records VNull = throw (TypeError (ReadOfNull (lit "results")))
  /\ extract_records VUndefined = throw (TypeError (ReadOfUndefined (lit "results")))
  /\ (forall fields found,
        lookup_field (lit "results") fields = Some found -> truthy found = true ->
        extract_records (VObj fields) = ret found)
  /\ (forall fields found inner,
        lookup_field (lit "results") fields = Some found -> truthy found = false ->
        lookup_field (lit "data") fields = Some inner -> truthy inner = true ->
        extract_records (VObj fields) = ret inner)
  /\ (forall fields found,
        lookup_field (lit "results") fields = Some found -> truthy found = false ->
        lookup_field (lit "data") fields = None ->
        extract_records (VObj fields) = ret (VArr [VObj fields])).
Proof.
  split; [reflexivity|]. split; [reflexivity|]. split; [|split].
  - intros fields found Hr Ht. unfold extract_records.
    rewrite !property_defined, bind_ret by reflexivity.
    unfold own_property. rewrite Hr. simpl default. now rewrite Ht.
  - intros fields found inner Hr Ht Hd Hi. unfold extract_records.
    rewrite !property_defined, bind_ret by reflexivity.
    unfold own_property. rewrite Hr, Hd. simpl default. now rewrite Ht, bind_ret, Hi.
  - intros fields found Hr Ht Hd. unfold extract_records.
    rewrite !property_defined, bind_ret by reflexivity.
    unfold own_property. rewrite Hr, Hd. simpl default. now rewrite Ht, bind_ret.
Qed.

End Properties.

(** * The properties on the plain host *)

(** C2 fails as stated: what is written is not the bare array of the
    example but the whole body. *)
Lemma farms_list_json_not_the_array :
  stdout (action farms_world (FarmsList json_options))
  <> [shown (JSON_stringify2 (VArr [farm_a]))]
  /\ stdout (action farms_world (FarmsList json_options)) = [farms_envelope_text].
Proof. split; [intros Heq; vm_compute in Heq; discriminate | reflexivity]. Qed.

(** C2, as amended, on the example. *)
Lemma farms_list_json_witness :
  action farms_world (FarmsList json_options)
  = ([ConfigGet KApiKey; SpinnerStart (lit "Fetching farms..."); ConfigGet KApiKey;
      Request (list_request farms_world (lit "/v4/farms") (VNum (Int 50)));
      SpinnerStop; Stdout farms_envelope_text],
     Returned tt).
Proof.
  refine (proj1 (farms_list_json farms_world None 200 farms_envelope _ _ _)).
  - discriminate.
  - reflexivity.
  - lia.
Defined.


(** C3 on the four shapes. *)
Lemma extract_records_total_witness :
  extract_records farms_envelope = ret (VArr [farm_a])
  /\ extract_records (VObj [(lit "data", VArr [farm_a])]) = ret (VArr [farm_a])
  /\ extract_records (VArr [farm_a]) = ret (VArr [farm_a])
  /\ extract_records farm_a = ret (VArr [farm_a]).
Proof.
  destruct extract_records_total as (Hresults & Hdata & Harray & Hobject & _).
  split; [|split; [|split]].
  - refine (Hresults _ [farm_a] _). reflexivity.
  - refine (Hdata _ [farm_a] _ _); reflexivity.
  - exact (Harray [farm_a]).
  - refine (Hobject _ _ _); reflexivity.
Defined.









(** C7 on a store without a key. *)
Lemma requireAuth_guards_witness :
  action fresh_world (FieldsGet (lit "f1") false) = (not_configured_events, Exited 1%Z)
  /\ requests (action fresh_world (FieldsGet (lit "f1") false)) = [].
Proof.
  refine (proj2 (requireAuth_guards fresh_world (FieldsGet (lit "f1") false)) _).
  reflexivity.
Defined.

(** C9 at [--limit 100] and at no [--limit]. *)
Lemma list_limit_witness :
  requests (listFields farms_world (VObj [(lit "limit", VNum (Int 100))]))
  = [list_request farms_world (lit "/v4/fields") (VNum (Int 100))]
  /\ requests (listFields farms_world VUndefined)
     = [list_request farms_world (lit "/v4/fields") (VNum (Int 50))]
  /\ requests (action farms_world
                 (HarvestList {| opt_limit := Some (lit "100"); opt_json := false |}))
     = [list_request farms_world (lit "/v4/activitySummaries/harvest") (VNum (Int 100))]
  /\ requests (action farms_world
                 (HarvestList {| opt_limit := None; opt_json := false |}))
     = [list_request farms_world (lit "/v4/activitySummaries/harvest") (VNum (Int 50))].
Proof.
  destruct (list_limit farms_world) as [Hoperation Hcommand].
  destruct (Hoperation listFields (lit "/v4/fields") (or_introl eq_refl))
    as [Hgiven Hleft_out].
  split; [|split; [|split]].
  - refine (Hgiven _ (VNum (Int 100)) _ _); [reflexivity | discriminate].
  - refine (Hleft_out VUndefined _). now left.
  - refine (proj1 (Hcommand (HarvestList {| opt_limit := Some (lit "100"); opt_json := false |})
                     _ _ eq_refl _)).
    discriminate.
  - refine (proj1 (Hcommand (HarvestList {| opt_limit := None; opt_json := false |})
                     _ _ eq_refl _)).
    discriminate.
Defined.

(** ** The further properties on the plain host *)

(** X2 on [farms get a1]. *)
Lemma action_trace_witness :
  exists outputs,
    fst (action farms_world (FarmsGet (lit "a1") false))
    = ConfigGet KApiKey :: SpinnerStart (lit "Fetching farm...")
        :: fst (call farms_world (GetFarm (VStr (lit "a1")))) ++ SpinnerStop :: outputs
    /\ Forall is_output outputs.
Proof.
  refine (action_trace farms_world (FarmsGet (lit "a1") false) _). discriminate.
Defined.

(** X3 on a 404. *)
Lemma action_failure_witness :
  action not_found_world (FieldsGet (lit "f1") false)
  = ([ConfigGet KApiKey; SpinnerStart (lit "Fetching field..."); ConfigGet KApiKey;
      Request (api_request not_found_world GET (lit "/v4/fields/f1") None None);
      SpinnerStop; Stderr (ballot_x ++ lit " Resource not found.")],
     Exited 1%Z).
Proof.
  refine (action_failure not_found_world (FieldsGet (lit "f1") false)
            (kind_error NotFoundError) _ _).
  - discriminate.
  - reflexivity.
Defined.

(** X4 on [boundaries get b1 --json]. *)
Lemma action_json_witness :
  action farms_world (BoundariesGet (lit "b1") true)
  = ([ConfigGet KApiKey; SpinnerStart (lit "Fetching boundary..."); ConfigGet KApiKey;
      Request (api_request farms_world GET (lit "/v4/boundaries/b1") None None);
      SpinnerStop; Stdout farms_envelope_text],
     Returned tt).
Proof.
  refine (action_json farms_world (BoundariesGet (lit "b1") true) farms_envelope _ _ _).
  - discriminate.
  - reflexivity.
  - reflexivity.
Defined.

(** X5 on [planting list]. *)
Lemma action_requests_witness :
  exists r,
    requests (action farms_world (PlantingList text_options)) = [r]
    /\ requests (call farms_world (command_call (PlantingList text_options))) = [r]
    /\ req_baseURL r = lit "https://platform.climate.com"
    /\ In (lit "Authorization", lit "Bearer k3y") (req_headers r).
Proof.
  refine (action_requests farms_world (PlantingList text_options) _). discriminate.
Defined.

(** X7: the run of [farms list] is the same on a store that also holds a
    token. *)
Lemma action_reads_only_the_key_witness :
  action (answering (config_set with_token (SetApiKey test_key)) (Reply 200 farms_envelope))
         (FarmsList text_options)
  = action farms_world (FarmsList text_options).
Proof.
  refine (proj2 (action_reads_only_the_key farms_world (FarmsList text_options))
            (config_set with_token (SetApiKey test_key)) _).
  reflexivity.
Defined.

(** X9 on [config set --api-key k3y] and on [config set] alone. *)
Lemma config_set_action_run_witness :
  config_set_action fresh_world (Some test_key)
  = (setConfig fresh_world (SetApiKey test_key),
     ([Stdout (check_mark ++ lit " API key set")], Returned tt))
  /\ config_set_action fresh_world None
     = (fresh_world,
        ([Stderr (ballot_x ++ lit " No options provided. Use --api-key")], Returned tt)).
Proof.
  destruct (config_set_action_run fresh_world (Some test_key)) as [Hgiven _].
  destruct (config_set_action_run fresh_world None) as [_ Hmissing].
  split.
  - refine (proj1 (Hgiven test_key eq_refl _)). discriminate.
  - refine (Hmissing _). now left.
Defined.

(** X10: two keys that end alike are shown alike. *)
Lemma config_show_masks_witness :
  stdout (config_show_action farms_world)
  = [[10%N] ++ lit "Climate FieldView CLI Configuration" ++ [10%N];
     lit "API Key:  ********k3y";
     []]
  /\ config_show_action
       (answering (config_set default_config (SetApiKey (lit "a-long-secret-ak3y")))
          (Reply 200 farms_envelope))
     = config_show_action
         (answering (config_set default_config (SetApiKey (lit "other-ak3y")))
            (Reply 200 farms_envelope)).
Proof.
  split.
  - refine (proj1 (proj2 (config_show_masks farms_world) _)). discriminate.
  - refine (proj2 (proj2 (proj2 (config_show_masks
              (answering (config_set default_config (SetApiKey (lit "other-ak3y")))
                 (Reply 200 farms_envelope))) _))
              (answering (config_set default_config (SetApiKey (lit "a-long-secret-ak3y")))
                 (Reply 200 farms_envelope)) _ _).
    + discriminate.
    + discriminate.
    + reflexivity.
Defined.



(** X12 on the same table. *)
Lemma table_whole_or_nothing_witness :
  (cells_ok two_farms farms_columns
   /\ snd (printTable (VArr two_farms) farms_columns) = Returned tt
   /\ length (stdout (printTable (VArr two_farms) farms_columns)) = 5)
  \/ (~ cells_ok two_farms farms_columns
      /\ exists e, printTable (VArr two_farms) farms_columns = ([], Thrown e)).
Proof.
  refine (table_whole_or_nothing two_farms farms_columns _). discriminate.
Defined.

(** X13 on a string. *)
Lemma table_of_no_array_witness :
  printTable (VStr (lit "oops")) farms_columns
  = throw (Error (lit "data.forEach is not a function")).
Proof.
  refine (table_of_no_array (VStr (lit "oops")) farms_columns _ _ _ _).
  - reflexivity.
  - reflexivity.
  - discriminate.
  - discriminate.
Defined.

(** X15 on [farms list] and the envelope of the example. *)
Lemma list_text_output_witness :
  action farms_world (FarmsList text_options)
  = ([ConfigGet KApiKey; SpinnerStart (lit "Fetching farms..."); ConfigGet KApiKey;
      Request (list_request farms_world (lit "/v4/farms") (VNum (Int 50)));
      SpinnerStop;
      Stdout (lit "ID  Name    Fields");
      Stdout (replicate 18 box_line);
      Stdout (lit "a1  Farm A  N/A   ");
      Stdout ([10%N] ++ lit "1 result(s)")],
     Returned tt).
Proof.
  assert (Hcells : cells_ok [farm_a] farms_columns).
  { intros row column Hrow Hcolumn. simpl in Hrow, Hcolumn.
    destruct Hrow as [<-|[]]; destruct Hcolumn as [<-|[<-|[<-|[]]]]; eexists; reflexivity. }
  assert (Hkey : apiKey (w_config farms_world) <> []) by discriminate.
  assert (Hrows : [farm_a] <> []) by discriminate.
  destruct (list_text_output farms_world (FarmsList text_options) farms_columns
              farms_envelope [farm_a] Hkey eq_refl eq_refl eq_refl eq_refl)
    as (_ & Htable & _).
  rewrite (Htable Hrows Hcells). reflexivity.
Defined.

(** X16 on [fields create --name "North Field" --acres 120]. *)
Lemma fields_create_text_witness :
  stdout (action created_world (FieldsCreate (lit "North Field") acres_option false))
  = [check_mark ++ lit " Field created: North Field"; lit "Field ID:  f1"]
  /\ exists f,
       action null_world (FieldsCreate (lit "North Field") acres_option false)
       = ([ConfigGet KApiKey; SpinnerStart (lit "Creating field..."); ConfigGet KApiKey;
           Request (api_request null_world POST (lit "/v4/fields") None
                      (Some (VObj [(lit "name", VStr (lit "North Field"));
                                   (lit "acres", VNum (Int 120))])));
           SpinnerStop;
           Stdout (check_mark ++ lit " Field created: North Field");
           Stderr (ballot_x ++ lit " " ++ fault_message f)],
          Exited 1%Z).
Proof.
  assert (Hkey : apiKey (w_config created_world) <> []) by discriminate.
  destruct (fields_create_text created_world (lit "North Field") acres_option north_field
              Hkey eq_refl) as [Hbody _].
  destruct (fields_create_text null_world (lit "North Field") acres_option VNull
              Hkey eq_refl) as [_ Hnull].
  split.
  - rewrite (Hbody eq_refl). reflexivity.
  - destruct (Hnull eq_refl) as [f Hf]. exists f. rewrite Hf. reflexivity.
Defined.


(** X18: a token valid at the clock of [answering] is valid a minute
    before. *)
Lemma hasValidToken_over_time_witness :
  snd (hasValidToken {| w_config := with_token; w_net := fun _ => NoReply [];
                        w_now := 1699999940000 |})
  = Returned true.
Proof.
  refine (hasValidToken_over_time (answering with_token (NoReply [])) 1699999940000
            _ _ with_token _ _).
  - simpl. lia.
  - reflexivity.
  - reflexivity.
  - reflexivity.
Defined.

(** X19 on a function that throws. *)
Lemma withSpinner_brackets_witness :
  withSpinner (lit "Fetching...") (@throw _ value (Error (lit "boom")))
  = ([SpinnerStart (lit "Fetching..."); SpinnerStop], Thrown (Error (lit "boom"))).
Proof.
  refine (withSpinner_brackets (lit "Fetching...") (throw (Error (lit "boom"))) _).
  intros code. discriminate.
Defined.

(** X20 on [results: null] beside [data], and on a [results] that is a
    string. *)
Lemma extract_records_edges_witness :
  extract_records (VObj [(lit "results", VNull); (lit "data", VArr [farm_a])])
  = ret (VArr [farm_a])
  /\ extract_records (VObj [(lit "results", VStr (lit "oops"))]) = ret (VStr (lit "oops")).
Proof.
  destruct extract_records_edges as (_ & _ & Htruthy & Hfalsy & _).
  split.
  - refine (Hfalsy _ VNull (VArr [farm_a]) _ _ _ _); reflexivity.
  - refine (Htruthy _ (VStr (lit "oops")) _ _); reflexivity.
Defined.
